(** * Playlist manager: OAuth2 authorization flow and paginated retrieval

    A shallow embedding of [config.py], [oauth_server.py], [models.py] and
    [services/spotify_service.py], and the properties of the authentication
    flow and of the retrieval pipeline proved over it.

    Python objects shared by reference (the configuration, the token manager
    and the callback server are each reached from several objects) live in one
    [State] record; the outside world (clock, network, browser redirects,
    random source, port table) is an [Env] of oracles together with the
    counters and logs of [State] that record what the program did to it.
    Printing is not modelled. *)

From Stdlib Require Import ZArith Lia.
From stdpp Require Import gmap strings list pretty sorting.

(** ** Python values *)

(** Truthiness of an [Optional[str]]: [None] and the empty string are falsy. *)
Definition truthy_str (o : option string) : bool :=
  match o with
  | Some s => negb (String.eqb s "")
  | None => false
  end.

(** Truthiness of an optional number: [None] and zero are falsy. *)
Definition truthy_num (o : option Z) : bool :=
  match o with
  | Some z => negb (z =? 0)%Z
  | None => false
  end.

(** [" ".join(l)]. *)
Fixpoint join (sep : string) (l : list string) : string :=
  match l with
  | [] => ""
  | [x] => x
  | x :: rest => x +:+ sep +:+ join sep rest
  end.

(** [l[:n]] for a Python integer [n]: a negative bound counts from the end. *)
Definition slice_to {A} (l : list A) (n : Z) : list A :=
  if (0 <=? n)%Z then take (Z.to_nat n) l
  else take (length l - Z.to_nat (- n)) l.

(** The exception classes the program raises or meets; all of them derive
    from [Exception], the last three are those of [services/base.py]. *)
Inductive exn_class :=
| Exception
| TimeoutError
| KeyError
| ValueError
| AttributeError
| OSError
| ConnectionError
| MusicServiceError
| AuthenticationError
| RateLimitError.

Record exn := Exn { exn_cls : exn_class; exn_msg : string }.

(** What running a piece of the program gives: a value, a raised exception,
    or no answer within the given number of loop iterations. *)
Inductive outcome (A : Type) :=
| Return (a : A)
| Raise (e : exn)
| Diverge.
Arguments Return {A} a.
Arguments Raise {A} e.
Arguments Diverge {A}.

(** ** models.py *)

Inductive PlaylistType := OWNED | FOLLOWED | COLLABORATIVE.
Inductive TrackType := TRACK | EPISODE | LOCAL.

(** [Dict[str, str]] and [Dict[str, Any]] payloads that are only copied. *)
Definition urls := list (string * string).
Definition image := list (string * string).
(** A parsed [datetime], kept as its normalised ISO text. *)
Definition datetime := string.

Module Artist.
Record t := mk { id : string; name : string; uri : string; external_urls : urls }.
End Artist.

Module Album.
Record t := mk {
  id : string; name : string; uri : string; release_date : string;
  album_type : string; artists : list Artist.t; images : list image;
  external_urls : urls }.
End Album.

Module Track.
(** [id] is annotated [str]; it holds what the wire record has. *)
Record t := mk {
  id : option string; name : string; uri : string; track_type : TrackType;
  duration_ms : Z; explicit : bool; popularity : Z;
  preview_url : option string; track_number : Z; disc_number : Z;
  artists : list Artist.t; album : Album.t; external_urls : urls;
  isrc : option string; added_at : option datetime;
  added_by_user_id : option string }.
End Track.

Module PlaylistOwner.
Record t := mk { id : string; display_name : string; uri : string; external_urls : urls }.
End PlaylistOwner.

Module Playlist.
Record t := mk {
  id : string; name : string; description : option string; uri : string;
  playlist_type : PlaylistType; public : bool; collaborative : bool;
  owner : PlaylistOwner.t; follower_count : Z; track_count : Z;
  tracks : list Track.t; images : list image; external_urls : urls;
  snapshot_id : string; created_at : option datetime;
  modified_at : option datetime }.

(** [playlist.tracks = ts] *)
Definition set_tracks (ts : list Track.t) (p : t) : t :=
  mk (id p) (name p) (description p) (uri p) (playlist_type p) (public p)
     (collaborative p) (owner p) (follower_count p) (track_count p) ts
     (images p) (external_urls p) (snapshot_id p) (created_at p)
     (modified_at p).
End Playlist.

Module UserProfile.
Record t := mk {
  id : string; display_name : string; email : string; country : string;
  follower_count : Z; uri : string; external_urls : urls;
  images : list image; product : string }.
End UserProfile.

(** ** Wire records

    The JSON objects of the Web API, with the keys the parsers read. A key read
    with [data[k]] is a plain field; a key read with [data.get(k, default)] is an
    [option], [None] standing for an absent key. *)

Module ArtistJson.
Record t := mk { id : string; name : string; uri : string; external_urls : option urls }.
End ArtistJson.

Module AlbumJson.
Record t := mk {
  id : option string; name : option string; uri : option string;
  release_date : option string; album_type : option string;
  artists : option (list ArtistJson.t); images : option (list image);
  external_urls : option urls }.
(** [data.get("album", {})] on a record without the key. *)
Definition empty : t := mk None None None None None None None None.
End AlbumJson.

Module TrackJson.
(** [id] is [None] for the JSON [null] of a local file. [external_ids] is
    [None] without the key, [Some None] with the key and no ["isrc"]. *)
Record t := mk {
  id : option string; name : string; uri : string;
  duration_ms : option Z; explicit : option bool; popularity : option Z;
  preview_url : option string; track_number : option Z;
  disc_number : option Z; artists : option (list ArtistJson.t);
  album : option AlbumJson.t; external_urls : option urls;
  external_ids : option (option string) }.
End TrackJson.

Module ItemJson.
(** An entry of a track page; [track] is [None] for JSON [null],
    [added_by] holds [added_by.get("id")]. *)
Record t := mk {
  track : option TrackJson.t; added_at : option string;
  added_by : option (option string) }.
End ItemJson.

Module OwnerJson.
Record t := mk { id : string; display_name : string; uri : string; external_urls : option urls }.
End OwnerJson.

Module PlaylistJson.
(** [followers] holds [followers.total], [tracks_total] is [tracks.total]. *)
Record t := mk {
  id : string; name : string; description : option string; uri : string;
  public : option bool; collaborative : option bool; owner : OwnerJson.t;
  followers : option Z; tracks_total : Z; images : option (list image);
  external_urls : option urls; snapshot_id : string }.
End PlaylistJson.

Module ProfileJson.
Record t := mk {
  id : string; display_name : option string; email : option string;
  country : option string; followers : option Z; uri : string;
  external_urls : option urls; images : option (list image);
  product : option string }.
End ProfileJson.

(** The body of a Web API response, by the shape of its JSON object. *)
Inductive payload :=
| ProfileBody (p : ProfileJson.t)
| PlaylistPage (items : list PlaylistJson.t) (next : option string)
| PlaylistBody (p : PlaylistJson.t)
| TrackPage (items : list ItemJson.t) (next : option string)
| OtherBody.

(** ** The network *)

Inductive param := PInt (z : Z) | PStr (s : string).

(** A request of [_make_request]: method, URL path, query parameters and the
    bearer token of the [Authorization] header. *)
Record api_request := ApiRequest {
  method : string; endpoint : string;
  params : list (string * param); bearer : string }.

Record api_response := ApiResponse {
  status : Z; retry_after : option Z; text : string; json : payload }.

(** The form posted to the token endpoint, key by key. *)
Definition token_request := list (string * option string).

(** The JSON object of a token response; an absent key is [None], a key
    holding [null] is [Some None]. *)
Record TokenJson := mkTokenJson {
  tj_access_token : option (option string);
  tj_refresh_token : option (option string);
  tj_expires_in : option Z }.

(** [token_json] is [None] when the body is not JSON. *)
Record token_response := TokenResponse {
  token_status : Z; token_text : string; token_json : option TokenJson }.

(** [urllib.parse.parse_qs] maps each key of the query string to the list
    of its values, never empty: a first value and the others. *)
Abbreviation query := (gmap string (string * list string)).

(** ** config.py: the objects *)

Module SpotifyConfig.
Record t := mk {
  client_id : option string; client_secret : option string;
  redirect_uri : string; scopes : list string }.
End SpotifyConfig.

Module TokenManager.
(** The three fields of the manager; the persisted document
    ([spotify_tokens.json]) has the same three keys. *)
Record t := mk {
  access_token : option string; refresh_token : option string;
  expires_at : option Z }.
End TokenManager.

(** ** oauth_server.py: the objects *)

Module HTTPServer.
(** The attributes [start_server] adds to the server object, and whether
    the server is between [serve_forever] and [shutdown]. *)
Record t := mk {
  auth_code : option string; auth_error : option string;
  auth_state : option string; callback_received : bool; serving : bool }.
End HTTPServer.

Module SpotifyOAuthServer.
(** [expected_state] is [None] while the attribute does not exist. *)
Record t := mk { server : option HTTPServer.t; expected_state : option string }.
End SpotifyOAuthServer.

(** The authorization URL: the endpoint and its query parameters. *)
Record auth_url := AuthUrl { url_base : string; url_params : list (string * option string) }.

(** [CallbackHandler.do_GET]: the server object after the request, and the
    status of the response that was sent, if one was. *)
Definition do_GET (query_params : query) (srv : HTTPServer.t) : HTTPServer.t * option Z :=
  let '(srv, sent) :=
    match query_params !! "code" with
    | Some (code, _) =>
        let auth_state :=
          match query_params !! "state" with
          | Some (st, _) => Some st
          | None => None
          end in
        (HTTPServer.mk (Some code) (HTTPServer.auth_error srv) auth_state
           (HTTPServer.callback_received srv) (HTTPServer.serving srv),
         Some 200%Z)
    | None =>
        match query_params !! "error" with
        | Some (err, _) =>
            (HTTPServer.mk (HTTPServer.auth_code srv) (Some err)
               (HTTPServer.auth_state srv) (HTTPServer.callback_received srv)
               (HTTPServer.serving srv),
             Some 400%Z)
        | None => (srv, None)
        end
    end in
  (HTTPServer.mk (HTTPServer.auth_code srv) (HTTPServer.auth_error srv)
     (HTTPServer.auth_state srv) true (HTTPServer.serving srv),
   sent).

(** The result slot of a listener: code, state and error. *)
Definition recorded (srv : HTTPServer.t) : option string * option string * option string :=
  (HTTPServer.auth_code srv, HTTPServer.auth_state srv, HTTPServer.auth_error srv).

(** The listener thread serving a sequence of requests, one after the other. *)
Definition serve (requests : list query) (srv : HTTPServer.t) : HTTPServer.t :=
  foldl (fun srv q => fst (do_GET q srv)) srv requests.

(** The exceptions of [wait_for_callback], under the names of the error
    taxonomy: line 161 ([CallbackTimeout]), line 167 ([AuthorizationDenied])
    and line 171 ([CsrfMismatch]). *)
Definition CallbackTimeout : exn := Exn TimeoutError "OAuth callback timeout".
Definition AuthorizationDenied (auth_error : string) : exn :=
  Exn Exception ("OAuth error: " +:+ auth_error).
Definition CsrfMismatch : exn :=
  Exn Exception "State parameter mismatch - possible CSRF attack".

(** ** The world and the program state *)

Record Env := mkEnv {
  (** the [k]-th reading of [time.time()], in seconds *)
  clock : nat -> Z;
  (** the [k]-th state token drawn from [secrets] *)
  urandom : nat -> string;
  (** whether the [k]-th [HTTPServer(...)] can bind its port *)
  port_free : nat -> bool;
  (** the redirects the listener thread handles during the [k]-th sleep *)
  redirects : nat -> list query;
  (** the token endpoint, given the requests it has seen; [None] when the
      connection fails *)
  token_endpoint : list token_request -> token_request -> option token_response;
  (** the Web API, given the requests it has seen; [None] when the
      connection fails *)
  api : list api_request -> api_request -> option api_response;
  (** [datetime.fromisoformat]; [None] for a [ValueError] *)
  fromisoformat : string -> option datetime }.

Record State := mkState {
  clock_reads : nat;
  draws : nat;
  binds : nat;
  sleeps : nat;
  token_posts : list token_request;
  api_calls : list api_request;
  opened : list auth_url;
  token_file : option TokenManager.t;
  config : SpotifyConfig.t;
  token_manager : TokenManager.t;
  oauth_server : SpotifyOAuthServer.t;
  _authenticated : bool;
  _user_profile : option UserProfile.t }.

Definition set_clock_reads (n : nat) (s : State) : State :=
  mkState n (draws s) (binds s) (sleeps s) (token_posts s) (api_calls s)
    (opened s) (token_file s) (config s) (token_manager s) (oauth_server s)
    (_authenticated s) (_user_profile s).
Definition set_draws (n : nat) (s : State) : State :=
  mkState (clock_reads s) n (binds s) (sleeps s) (token_posts s) (api_calls s)
    (opened s) (token_file s) (config s) (token_manager s) (oauth_server s)
    (_authenticated s) (_user_profile s).
Definition set_binds (n : nat) (s : State) : State :=
  mkState (clock_reads s) (draws s) n (sleeps s) (token_posts s) (api_calls s)
    (opened s) (token_file s) (config s) (token_manager s) (oauth_server s)
    (_authenticated s) (_user_profile s).
Definition set_sleeps (n : nat) (s : State) : State :=
  mkState (clock_reads s) (draws s) (binds s) n (token_posts s) (api_calls s)
    (opened s) (token_file s) (config s) (token_manager s) (oauth_server s)
    (_authenticated s) (_user_profile s).
Definition set_token_posts (l : list token_request) (s : State) : State :=
  mkState (clock_reads s) (draws s) (binds s) (sleeps s) l (api_calls s)
    (opened s) (token_file s) (config s) (token_manager s) (oauth_server s)
    (_authenticated s) (_user_profile s).
Definition set_api_calls (l : list api_request) (s : State) : State :=
  mkState (clock_reads s) (draws s) (binds s) (sleeps s) (token_posts s) l
    (opened s) (token_file s) (config s) (token_manager s) (oauth_server s)
    (_authenticated s) (_user_profile s).
Definition set_opened (l : list auth_url) (s : State) : State :=
  mkState (clock_reads s) (draws s) (binds s) (sleeps s) (token_posts s)
    (api_calls s) l (token_file s) (config s) (token_manager s)
    (oauth_server s) (_authenticated s) (_user_profile s).
Definition set_token_file (f : option TokenManager.t) (s : State) : State :=
  mkState (clock_reads s) (draws s) (binds s) (sleeps s) (token_posts s)
    (api_calls s) (opened s) f (config s) (token_manager s) (oauth_server s)
    (_authenticated s) (_user_profile s).
Definition set_token_manager (tm : TokenManager.t) (s : State) : State :=
  mkState (clock_reads s) (draws s) (binds s) (sleeps s) (token_posts s)
    (api_calls s) (opened s) (token_file s) (config s) tm (oauth_server s)
    (_authenticated s) (_user_profile s).
Definition set_oauth_server (o : SpotifyOAuthServer.t) (s : State) : State :=
  mkState (clock_reads s) (draws s) (binds s) (sleeps s) (token_posts s)
    (api_calls s) (opened s) (token_file s) (config s) (token_manager s) o
    (_authenticated s) (_user_profile s).
Definition set_authenticated (b : bool) (s : State) : State :=
  mkState (clock_reads s) (draws s) (binds s) (sleeps s) (token_posts s)
    (api_calls s) (opened s) (token_file s) (config s) (token_manager s)
    (oauth_server s) b (_user_profile s).
Definition set_user_profile (p : option UserProfile.t) (s : State) : State :=
  mkState (clock_reads s) (draws s) (binds s) (sleeps s) (token_posts s)
    (api_calls s) (opened s) (token_file s) (config s) (token_manager s)
    (oauth_server s) (_authenticated s) p.

(** ** The monad of the program: state, exceptions, bounded loops *)

Definition M (A : Type) : Type := State -> outcome A * State.

Definition ret {A} (a : A) : M A := fun s => (Return a, s).

Definition bind {A B} (m : M A) (k : A -> M B) : M B :=
  fun s =>
    match m s with
    | (Return a, s') => k a s'
    | (Raise e, s') => (Raise e, s')
    | (Diverge, s') => (Diverge, s')
    end.

Notation "x <- m ;; k" := (bind m (fun x => k))
  (at level 100, m at next level, right associativity).

Definition raise {A} (e : exn) : M A := fun s => (Raise e, s).

Definition diverge {A} : M A := fun s => (Diverge, s).

Definition gets {A} (f : State -> A) : M A := fun s => (Return (f s), s).

Definition modify (f : State -> State) : M unit := fun s => (Return tt, f s).

(** [try: m  except Exception as e: h e] *)
Definition try_except {A} (m : M A) (h : exn -> M A) : M A :=
  fun s =>
    match m s with
    | (Raise e, s') => h e s'
    | r => r
    end.

(** [try: m  finally: c]; the clean-up runs whether [m] returned or raised. *)
Definition try_finally {A} (m : M A) (c : M unit) : M A :=
  fun s =>
    match m s with
    | (Diverge, s') => (Diverge, s')
    | (r, s') =>
        match c s' with
        | (Return _, s'') => (r, s'')
        | (Raise e, s'') => (Raise e, s'')
        | (Diverge, s'') => (Diverge, s'')
        end
    end.

(** [for x in l: body x] *)
Fixpoint for_each {A} (l : list A) (body : A -> M unit) : M unit :=
  match l with
  | [] => ret tt
  | x :: rest => _ <- body x ;; for_each rest body
  end.

(** [d[k]] on a key that may be absent. *)
Definition item {A} (k : string) (o : option A) : M A :=
  match o with
  | Some a => ret a
  | None => raise (Exn KeyError k)
  end.

Section Program.

Context (E : Env).

(** [time.time()] *)
Definition time_time : M Z :=
  fun s => (Return (clock E (clock_reads s)), set_clock_reads (S (clock_reads s)) s).

(** ** config.py *)

(** [SpotifyConfig.is_configured] *)
Definition is_configured : M bool :=
  c <- gets config ;;
  ret (truthy_str (SpotifyConfig.client_id c) && truthy_str (SpotifyConfig.client_secret c)).

(** [SpotifyConfig.get_scope_string] *)
Definition get_scope_string : M string :=
  c <- gets config ;;
  ret (join " " (SpotifyConfig.scopes c)).

(** [TokenManager.load_tokens] *)
Definition load_tokens : M unit :=
  f <- gets token_file ;;
  match f with
  | Some token_data => modify (set_token_manager token_data)
  | None => ret tt
  end.

(** [TokenManager.save_tokens], with a number for [expires_in] and a token
    file that can be written: the call then returns, and the order in which
    it sets the fields and writes the file does not show. *)
Definition save_tokens (access_token refresh_token : option string) (expires_in : Z) : M unit :=
  now <- time_time ;;
  let token_data := TokenManager.mk access_token refresh_token (Some (now + expires_in)%Z) in
  _ <- modify (set_token_manager token_data) ;;
  modify (set_token_file (Some token_data)).

(** [TokenManager.is_token_valid] *)
Definition is_token_valid : M bool :=
  tm <- gets token_manager ;;
  if negb (truthy_str (TokenManager.access_token tm))
     || negb (truthy_num (TokenManager.expires_at tm))
  then ret false
  else
    now <- time_time ;;
    match TokenManager.expires_at tm with
    | Some expires_at => ret (now <? expires_at - 300)%Z
    | None => ret false
    end.

(** [TokenManager.has_refresh_token] *)
Definition has_refresh_token : M bool :=
  tm <- gets token_manager ;;
  ret (truthy_str (TokenManager.refresh_token tm)).

(** [TokenManager.clear_tokens] *)
Definition clear_tokens : M unit :=
  _ <- modify (set_token_manager (TokenManager.mk None None None)) ;;
  modify (set_token_file None).

(** [TokenManager.__init__]: the three fields start empty, then the file is
    read. *)
Definition TokenManager_init : M unit :=
  _ <- modify (set_token_manager (TokenManager.mk None None None)) ;;
  load_tokens.

(** ** oauth_server.py *)

(** [self.server.<attribute>]; an [AttributeError] on [None]. *)
Definition server_attr {A} (attribute : HTTPServer.t -> A) : M A :=
  o <- gets oauth_server ;;
  match SpotifyOAuthServer.server o with
  | Some srv => ret (attribute srv)
  | None => raise (Exn AttributeError "'NoneType' object has no attribute")
  end.

(** [SpotifyOAuthServer.start_server]: binding the port may fail, and then
    [self.server] keeps what it had; otherwise a new server object is
    created, its attributes initialised, and its thread started. *)
Definition start_server : M unit :=
  k <- gets binds ;;
  _ <- modify (set_binds (S k)) ;;
  if port_free E k then
    o <- gets oauth_server ;;
    modify (set_oauth_server
              (SpotifyOAuthServer.mk
                 (Some (HTTPServer.mk None None None false true))
                 (SpotifyOAuthServer.expected_state o)))
  else raise (Exn OSError "[Errno 98] Address already in use").

(** [SpotifyOAuthServer.stop_server] *)
Definition stop_server : M unit :=
  o <- gets oauth_server ;;
  match SpotifyOAuthServer.server o with
  | Some srv =>
      modify (set_oauth_server
                (SpotifyOAuthServer.mk
                   (Some (HTTPServer.mk (HTTPServer.auth_code srv)
                            (HTTPServer.auth_error srv) (HTTPServer.auth_state srv)
                            (HTTPServer.callback_received srv) false))
                   (SpotifyOAuthServer.expected_state o)))
  | None => ret tt
  end.

(** [SpotifyOAuthServer.get_authorization_url] *)
Definition get_authorization_url : M auth_url :=
  k <- gets draws ;;
  _ <- modify (set_draws (S k)) ;;
  let state := urandom E k in
  c <- gets config ;;
  scope <- get_scope_string ;;
  let auth_params :=
    [("client_id", SpotifyConfig.client_id c);
     ("response_type", Some "code");
     ("redirect_uri", Some (SpotifyConfig.redirect_uri c));
     ("scope", Some scope);
     ("state", Some state);
     ("show_dialog", Some "true")] in
  o <- gets oauth_server ;;
  _ <- modify (set_oauth_server
                 (SpotifyOAuthServer.mk (SpotifyOAuthServer.server o) (Some state))) ;;
  ret (AuthUrl "https://accounts.spotify.com/authorize?" auth_params).

(** [webbrowser.open(auth_url)] *)
Definition webbrowser_open (u : auth_url) : M unit :=
  l <- gets opened ;;
  modify (set_opened (l ++ [u])).

(** [time.sleep(0.1)] in the wait loop: meanwhile the listener thread, if it
    is serving, handles the redirects that arrive. *)
Definition sleep : M unit :=
  k <- gets sleeps ;;
  _ <- modify (set_sleeps (S k)) ;;
  o <- gets oauth_server ;;
  match SpotifyOAuthServer.server o with
  | Some srv =>
      if HTTPServer.serving srv then
        modify (set_oauth_server
                  (SpotifyOAuthServer.mk (Some (serve (redirects E k) srv))
                     (SpotifyOAuthServer.expected_state o)))
      else ret tt
  | None => ret tt
  end.

(** The [while not self.server.callback_received] loop of
    [wait_for_callback], for at most [fuel] sleeps. *)
Fixpoint wait_loop (fuel : nat) (start_time timeout : Z) : M unit :=
  callback_received <- server_attr HTTPServer.callback_received ;;
  if callback_received then ret tt
  else
    match fuel with
    | O => diverge
    | S fuel =>
        now <- time_time ;;
        if (now - start_time >? timeout)%Z then raise CallbackTimeout
        else
          _ <- sleep ;;
          wait_loop fuel start_time timeout
    end.

(** [SpotifyOAuthServer.wait_for_callback] *)
Definition wait_for_callback (fuel : nat) (timeout : Z) : M (option string) :=
  o <- gets oauth_server ;;
  match SpotifyOAuthServer.server o with
  | None => raise (Exn Exception "Server not started")
  | Some _ =>
      start_time <- time_time ;;
      _ <- wait_loop fuel start_time timeout ;;
      auth_error <- server_attr HTTPServer.auth_error ;;
      if truthy_str auth_error then raise (AuthorizationDenied (default "" auth_error))
      else
        o <- gets oauth_server ;;
        auth_state <- server_attr HTTPServer.auth_state ;;
        let mismatch :=
          match SpotifyOAuthServer.expected_state o with
          | Some expected_state => negb (bool_decide (auth_state = Some expected_state))
          | None => false
          end in
        if mismatch then raise CsrfMismatch
        else server_attr HTTPServer.auth_code
  end.

(** [requests.post(token_url, data=token_data, headers=headers)] *)
Definition post_token (token_data : token_request) : M token_response :=
  seen <- gets token_posts ;;
  _ <- modify (set_token_posts (seen ++ [token_data])) ;;
  match token_endpoint E seen token_data with
  | Some response => ret response
  | None => raise (Exn ConnectionError "Connection aborted")
  end.

(** [response.json()] *)
Definition response_json (response : token_response) : M TokenJson :=
  match token_json response with
  | Some j => ret j
  | None => raise (Exn ValueError "Expecting value")
  end.

(** [SpotifyOAuthServer.exchange_code_for_tokens] *)
Definition exchange_code_for_tokens (auth_code : option string) : M TokenJson :=
  c <- gets config ;;
  let token_data :=
    [("grant_type", Some "authorization_code");
     ("code", auth_code);
     ("redirect_uri", Some (SpotifyConfig.redirect_uri c));
     ("client_id", SpotifyConfig.client_id c);
     ("client_secret", SpotifyConfig.client_secret c)] in
  response <- post_token token_data ;;
  if negb (token_status response =? 200)%Z
  then raise (Exn Exception ("Token exchange failed: " +:+ token_text response))
  else response_json response.

(** [SpotifyOAuthServer.refresh_access_token] *)
Definition refresh_access_token (refresh_token : option string) : M TokenJson :=
  c <- gets config ;;
  let token_data :=
    [("grant_type", Some "refresh_token");
     ("refresh_token", refresh_token);
     ("client_id", SpotifyConfig.client_id c);
     ("client_secret", SpotifyConfig.client_secret c)] in
  response <- post_token token_data ;;
  if negb (token_status response =? 200)%Z
  then raise (Exn Exception ("Token refresh failed: " +:+ token_text response))
  else response_json response.

(** [SpotifyAuthenticator._refresh_token] *)
Definition _refresh_token : M bool :=
  try_except
    (tm <- gets token_manager ;;
     token_response <- refresh_access_token (TokenManager.refresh_token tm) ;;
     access_token <- item "access_token" (tj_access_token token_response) ;;
     tm <- gets token_manager ;;
     let refresh_token :=
       default (TokenManager.refresh_token tm) (tj_refresh_token token_response) in
     expires_in <- item "expires_in" (tj_expires_in token_response) ;;
     _ <- save_tokens access_token refresh_token expires_in ;;
     ret true)
    (fun e => ret false).

(** [SpotifyAuthenticator._new_authentication] *)
Definition _new_authentication (fuel : nat) : M bool :=
  try_finally
    (try_except
       (_ <- start_server ;;
        auth_url <- get_authorization_url ;;
        _ <- webbrowser_open auth_url ;;
        auth_code <- wait_for_callback fuel 300 ;;
        if negb (truthy_str auth_code)
        then raise (Exn Exception "No authorization code received")
        else
          token_response <- exchange_code_for_tokens auth_code ;;
          access_token <- item "access_token" (tj_access_token token_response) ;;
          refresh_token <- item "refresh_token" (tj_refresh_token token_response) ;;
          expires_in <- item "expires_in" (tj_expires_in token_response) ;;
          _ <- save_tokens access_token refresh_token expires_in ;;
          ret true)
       (fun e => ret false))
    stop_server.

(** [SpotifyAuthenticator.authenticate] *)
Definition SpotifyAuthenticator_authenticate (fuel : nat) : M bool :=
  try_except
    (valid <- is_token_valid ;;
     if valid then ret true
     else
       has <- has_refresh_token ;;
       refreshed <- (if has then _refresh_token else ret false) ;;
       if refreshed then ret true
       else _new_authentication fuel)
    (fun e => ret false).

(** [SpotifyAuthenticator.get_access_token] *)
Definition get_access_token : M (option string) :=
  valid <- is_token_valid ;;
  if valid then
    tm <- gets token_manager ;;
    ret (TokenManager.access_token tm)
  else ret None.

(** ** services/spotify_service.py *)

(** [SpotifyService._make_request]; the request is logged when it is sent. *)
Definition _make_request (method endpoint : string) (params : list (string * param)) : M payload :=
  access_token <- get_access_token ;;
  if negb (truthy_str access_token)
  then raise (Exn AuthenticationError "No valid access token")
  else
    let request := ApiRequest method endpoint params (default "" access_token) in
    seen <- gets api_calls ;;
    _ <- modify (set_api_calls (seen ++ [request])) ;;
    match api E seen request with
    | None => raise (Exn ConnectionError "Cannot connect to host")
    | Some response =>
        if (status response =? 429)%Z then
          raise (Exn RateLimitError
                   ("Rate limited. Retry after "
                    +:+ pretty (default 60%Z (retry_after response)) +:+ " seconds"))
        else if (status response =? 401)%Z then
          raise (Exn AuthenticationError "Access token expired or invalid")
        else if (status response >=? 400)%Z then
          raise (Exn MusicServiceError
                   ("API error " +:+ pretty (status response) +:+ ": " +:+ text response))
        else ret (json response)
    end.

(** [SpotifyService._parse_playlist_summary], with [self._user_profile] as
    its first argument. *)
Definition _parse_playlist_summary (user_profile : option UserProfile.t)
    (data : PlaylistJson.t) : Playlist.t :=
  let owner_data := PlaylistJson.owner data in
  let owner :=
    PlaylistOwner.mk (OwnerJson.id owner_data) (OwnerJson.display_name owner_data)
      (OwnerJson.uri owner_data) (default [] (OwnerJson.external_urls owner_data)) in
  let current_user_id :=
    match user_profile with
    | Some profile => Some (UserProfile.id profile)
    | None => None
    end in
  let playlist_type :=
    if bool_decide (Some (OwnerJson.id owner_data) = current_user_id) then
      if default false (PlaylistJson.collaborative data) then COLLABORATIVE else OWNED
    else FOLLOWED in
  Playlist.mk (PlaylistJson.id data) (PlaylistJson.name data)
    (PlaylistJson.description data) (PlaylistJson.uri data) playlist_type
    (default false (PlaylistJson.public data))
    (default false (PlaylistJson.collaborative data)) owner
    (default 0%Z (PlaylistJson.followers data)) (PlaylistJson.tracks_total data)
    [] (default [] (PlaylistJson.images data))
    (default [] (PlaylistJson.external_urls data)) (PlaylistJson.snapshot_id data)
    None None.

(** [SpotifyService._parse_playlist_detailed] *)
Definition _parse_playlist_detailed (user_profile : option UserProfile.t)
    (data : PlaylistJson.t) (tracks : list Track.t) : Playlist.t :=
  Playlist.set_tracks tracks (_parse_playlist_summary user_profile data).

(** [s.replace('Z', '+00:00')] *)
Fixpoint replace_Z (s : string) : string :=
  match s with
  | EmptyString => EmptyString
  | String c rest =>
      if Ascii.eqb c (Ascii.ascii_of_nat 90) then "+00:00" +:+ replace_Z rest
      else String c (replace_Z rest)
  end.

Definition parse_artist (artist : ArtistJson.t) : Artist.t :=
  Artist.mk (ArtistJson.id artist) (ArtistJson.name artist) (ArtistJson.uri artist)
    (default [] (ArtistJson.external_urls artist)).

(** [SpotifyService._parse_track] *)
Definition _parse_track (data : TrackJson.t) (added_at_str : option string)
    (added_by : option (option string)) : Track.t :=
  let artists := parse_artist <$> default [] (TrackJson.artists data) in
  let album_data := default AlbumJson.empty (TrackJson.album data) in
  let album_artists := parse_artist <$> default [] (AlbumJson.artists album_data) in
  let album :=
    Album.mk (default "" (AlbumJson.id album_data)) (default "" (AlbumJson.name album_data))
      (default "" (AlbumJson.uri album_data))
      (default "" (AlbumJson.release_date album_data))
      (default "album" (AlbumJson.album_type album_data)) album_artists
      (default [] (AlbumJson.images album_data))
      (default [] (AlbumJson.external_urls album_data)) in
  let added_at :=
    if truthy_str added_at_str
    then fromisoformat E (replace_Z (default "" added_at_str))
    else None in
  let isrc :=
    match TrackJson.external_ids data with
    | Some external_ids => external_ids
    | None => None
    end in
  Track.mk (TrackJson.id data) (TrackJson.name data) (TrackJson.uri data) TRACK
    (default 0%Z (TrackJson.duration_ms data)) (default false (TrackJson.explicit data))
    (default 0%Z (TrackJson.popularity data)) (TrackJson.preview_url data)
    (default 1%Z (TrackJson.track_number data)) (default 1%Z (TrackJson.disc_number data))
    artists album (default [] (TrackJson.external_urls data)) isrc added_at
    (match added_by with Some added_by_id => added_by_id | None => None end).

(** [SpotifyService.get_user_profile] *)
Definition get_user_profile : M UserProfile.t :=
  authenticated <- gets _authenticated ;;
  if negb authenticated then raise (Exn AuthenticationError "Not authenticated")
  else
    data <- _make_request "GET" "/me" [] ;;
    match data with
    | ProfileBody data =>
        ret (UserProfile.mk (ProfileJson.id data)
               (default (ProfileJson.id data) (ProfileJson.display_name data))
               (default "" (ProfileJson.email data))
               (default "" (ProfileJson.country data))
               (default 0%Z (ProfileJson.followers data)) (ProfileJson.uri data)
               (default [] (ProfileJson.external_urls data))
               (default [] (ProfileJson.images data))
               (default "free" (ProfileJson.product data)))
    | _ => raise (Exn KeyError "id")
    end.

(** The [fields] hint of the track requests. *)
Definition track_fields : string :=
  "items(track(id,name,uri,duration_ms,explicit,popularity,track_number,disc_number,artists(id,name,uri,external_urls),album(id,name,uri,release_date,album_type,artists(id,name,uri,external_urls),images,external_urls),external_urls,external_ids),added_at,added_by(id)),next".

(** The tracks of one page: entries without a track or without a track
    identifier are skipped. *)
Definition page_tracks (items : list ItemJson.t) : list Track.t :=
  omap (fun item =>
          match ItemJson.track item with
          | Some track =>
              if truthy_str (TrackJson.id track)
              then Some (_parse_track track (ItemJson.added_at item) (ItemJson.added_by item))
              else None
          | None => None
          end) items.

(** The [while True] loop of [get_playlist_tracks], for at most [fuel]
    requests. *)
Fixpoint tracks_loop (fuel : nat) (playlist_id : string) (limit offset : Z)
    (tracks : list Track.t) : M (list Track.t) :=
  match fuel with
  | O => diverge
  | S fuel =>
      data <- _make_request "GET" ("/playlists/" +:+ playlist_id +:+ "/tracks")
                [("limit", PInt limit); ("offset", PInt offset);
                 ("fields", PStr track_fields)] ;;
      match data with
      | TrackPage items next =>
          let tracks := tracks ++ page_tracks items in
          if negb (truthy_str next) then ret tracks
          else tracks_loop fuel playlist_id limit (offset + limit)%Z tracks
      | _ => raise (Exn KeyError "items")
      end
  end.

(** [SpotifyService.get_playlist_tracks] *)
Definition get_playlist_tracks (fuel : nat) (playlist_id : string) : M (list Track.t) :=
  authenticated <- gets _authenticated ;;
  if negb authenticated then raise (Exn AuthenticationError "Not authenticated")
  else tracks_loop fuel playlist_id 50 0 [].

(** [SpotifyService.get_playlist_details]; a response of another shape
    fails in the parser, after the tracks were fetched. *)
Definition get_playlist_details (fuel : nat) (playlist_id : string) : M Playlist.t :=
  authenticated <- gets _authenticated ;;
  if negb authenticated then raise (Exn AuthenticationError "Not authenticated")
  else
    playlist_data <- _make_request "GET" ("/playlists/" +:+ playlist_id) [] ;;
    tracks <- get_playlist_tracks fuel playlist_id ;;
    match playlist_data with
    | PlaylistBody data =>
        user_profile <- gets _user_profile ;;
        ret (_parse_playlist_detailed user_profile data tracks)
    | _ => raise (Exn KeyError "owner")
    end.

(** The [while True] loop of [get_user_playlists], for at most [fuel]
    requests. *)
Fixpoint playlists_loop (fuel : nat) (limit : option Z) (batch_limit offset : Z)
    (playlists : list Playlist.t) : M (list Playlist.t) :=
  match fuel with
  | O => diverge
  | S fuel =>
      data <- _make_request "GET" "/me/playlists"
                [("limit", PInt batch_limit); ("offset", PInt offset)] ;;
      match data with
      | PlaylistPage items next =>
          user_profile <- gets _user_profile ;;
          let batch_playlists := _parse_playlist_summary user_profile <$> items in
          let playlists := playlists ++ batch_playlists in
          if negb (truthy_str next)
             || (truthy_num limit && (default 0 limit <=? Z.of_nat (length playlists))%Z)
          then ret playlists
          else playlists_loop fuel limit batch_limit (offset + batch_limit)%Z playlists
      | _ => raise (Exn KeyError "items")
      end
  end.

(** Lines 69 to 92 of [get_user_playlists]: the pagination and the cut to
    [limit]. *)
Definition fetch_playlists (fuel : nat) (limit : option Z) : M (list Playlist.t) :=
  let batch_limit := if truthy_num limit then Z.min 50 (default 0%Z limit) else 50%Z in
  playlists <- playlists_loop fuel limit batch_limit 0 [] ;;
  if truthy_num limit then ret (slice_to playlists (default 0%Z limit))
  else ret playlists.

(** One turn of the [for playlist in playlists] loop of [get_user_playlists]. *)
Definition load_playlist_tracks (fuel : nat) (playlist : Playlist.t) : M Playlist.t :=
  try_except
    (detailed_playlist <- get_playlist_details fuel (Playlist.id playlist) ;;
     ret (Playlist.set_tracks (Playlist.tracks detailed_playlist) playlist))
    (fun e => ret (Playlist.set_tracks [] playlist)).

(** Lines 94 to 103 of [get_user_playlists]: the playlists of the list are
    distinct objects, updated in place one after the other. *)
Fixpoint load_tracks (fuel : nat) (playlists : list Playlist.t) : M (list Playlist.t) :=
  match playlists with
  | [] => ret []
  | playlist :: rest =>
      playlist <- load_playlist_tracks fuel playlist ;;
      rest <- load_tracks fuel rest ;;
      ret (playlist :: rest)
  end.

(** [SpotifyService.get_user_playlists] *)
Definition get_user_playlists (fuel : nat) (limit : option Z) : M (list Playlist.t) :=
  authenticated <- gets _authenticated ;;
  if negb authenticated then raise (Exn AuthenticationError "Not authenticated")
  else
    playlists <- fetch_playlists fuel limit ;;
    load_tracks fuel playlists.

(** [SpotifyService.authenticate] *)
Definition SpotifyService_authenticate (fuel : nat) : M bool :=
  configured <- is_configured ;;
  if negb configured then ret false
  else
    success <- SpotifyAuthenticator_authenticate fuel ;;
    if success then
      _ <- modify (set_authenticated true) ;;
      _ <- try_except
             (profile <- get_user_profile ;;
              modify (set_user_profile (Some profile)))
             (fun e => ret tt) ;;
      ret success
    else ret success.

(** [SpotifyService.is_authenticated] *)
Definition is_authenticated : M bool :=
  authenticated <- gets _authenticated ;;
  if authenticated then is_token_valid else ret false.

End Program.

(** [SpotifyService.__init__] on a machine with the given configuration and
    token file. *)
Definition SpotifyService_init (cfg : SpotifyConfig.t) (file : option TokenManager.t) : State :=
  mkState 0 0 0 0 [] [] [] file cfg
    (default (TokenManager.mk None None None) file)
    (SpotifyOAuthServer.mk None None) false None.

(** * Frames *)

(** The computation never changes the part [f] of the state. *)
Definition preserves {F A} (f : State -> F) (m : M A) : Prop :=
  forall s, f (snd (m s)) = f s.

(** * Observations on a state *)

(** [token_data['grant_type']] of a posted form. *)
Definition grant_type (token_data : token_request) : option string :=
  match list_find (fun kv => fst kv = "grant_type") token_data with
  | Some (_, (_, v)) => v
  | None => None
  end.

(** The authorization-code exchanges among the posted forms. *)
Definition code_exchanges (posts : list token_request) : list token_request :=
  filter (fun token_data => grant_type token_data = Some "authorization_code") posts.

(** The error in the result slot of the listener, if there is a listener. *)
Definition listener_error (s : State) : option string :=
  match SpotifyOAuthServer.server (oauth_server s) with
  | Some srv => HTTPServer.auth_error srv
  | None => None
  end.


(** The two fields of the service object. *)
Definition service_fields (s : State) : bool * option UserProfile.t :=
  (_authenticated s, _user_profile s).

(** * The listing, fetch by fetch *)


(** The Web API serving a collection of playlists in pages: the items from
    [offset] on, [limit] at most, and a [next] cursor while items remain. *)
Definition playlists_page (collection : list PlaylistJson.t) (limit offset : Z) : api_response :=
  ApiResponse 200 None ""
    (PlaylistPage (take (Z.to_nat limit) (drop (Z.to_nat offset) collection))
       (if (offset + limit <? Z.of_nat (length collection))%Z
        then Some "https://api.spotify.com/v1/me/playlists?next"
        else None)).

(** [params[k]] of a request, when it is a number. *)
Definition int_param (k : string) (params : list (string * param)) : option Z :=
  match list_find (fun kv => fst kv = k) params with
  | Some (_, (_, PInt z)) => Some z
  | _ => None
  end.

(** * Pagination against a paged collection *)

(** The Web API of [E] serves the playlists of [collection] page by page,
    honouring the [limit] and [offset] of every request. *)
Definition serves_playlists (E : Env) (collection : list PlaylistJson.t) : Prop :=
  forall seen method bearer limit offset,
    api E seen
      (ApiRequest method "/me/playlists"
         [("limit", PInt limit); ("offset", PInt offset)] bearer)
    = Some (playlists_page collection limit offset).

(** The store holds the access token [token], valid at every reading of
    the clock of [E]. *)
Definition token_stays_valid (E : Env) (s : State) (token : string) : Prop :=
  TokenManager.access_token (token_manager s) = Some token /\ token <> "" /\
  exists expires_at,
    TokenManager.expires_at (token_manager s) = Some expires_at /\
    expires_at <> 0%Z /\ forall k, (clock E k < expires_at - 300)%Z.

(** [ceil(a / b)] *)
Definition ceil_div (a b : nat) : nat := (a + b - 1) / b.

(** The page size [get_user_playlists] asks for, and the number of items it
    is after, in a collection of [n] items. *)
Definition page_size (limit : option Z) : nat :=
  match limit with
  | Some l => Z.to_nat (Z.min 50 l)
  | None => 50
  end.

Definition wanted (n : nat) (limit : option Z) : nat :=
  match limit with
  | Some l => n `min` Z.to_nat l
  | None => n
  end.

(** The request for the [j]-th page of [size] playlists. *)
Definition page_request (token : string) (size j : nat) : api_request :=
  ApiRequest "GET" "/me/playlists"
    [("limit", PInt (Z.of_nat size)); ("offset", PInt (Z.of_nat (j * size)))] token.

(** * More observations *)

(** Whether a listener is serving. *)
Definition listening (s : State) : bool :=
  match SpotifyOAuthServer.server (oauth_server s) with
  | Some srv => HTTPServer.serving srv
  | None => false
  end.

(** The stored tokens: in memory and on file. *)
Definition stored_tokens (s : State) : TokenManager.t * option TokenManager.t :=
  (token_manager s, token_file s).

(** The Web API serving the entries of a playlist in pages. *)
Definition tracks_page (collection : list ItemJson.t) (limit offset : Z) : api_response :=
  ApiResponse 200 None ""
    (TrackPage (take (Z.to_nat limit) (drop (Z.to_nat offset) collection))
       (if (offset + limit <? Z.of_nat (length collection))%Z
        then Some "https://api.spotify.com/v1/playlists/tracks?next"
        else None)).

(** The Web API of [E] serves the entries of the playlist [playlist_id]
    page by page, honouring the [limit] and [offset] of every request. *)
Definition serves_tracks (E : Env) (playlist_id : string) (collection : list ItemJson.t)
    : Prop :=
  forall seen method bearer limit offset fields,
    api E seen
      (ApiRequest method ("/playlists/" +:+ playlist_id +:+ "/tracks")
         [("limit", PInt limit); ("offset", PInt offset); ("fields", PStr fields)] bearer)
    = Some (tracks_page collection limit offset).

(** The request for the [j]-th page of the entries of a playlist. *)
Definition tracks_request (token playlist_id : string) (j : nat) : api_request :=
  ApiRequest "GET" ("/playlists/" +:+ playlist_id +:+ "/tracks")
    [("limit", PInt 50); ("offset", PInt (Z.of_nat (j * 50)));
     ("fields", PStr track_fields)] token.

(** The Web API of [E] answers every request for the entries of the
    playlist [playlist_id] with a page that names a next one. *)
Definition always_next (E : Env) (playlist_id : string) : Prop :=
  forall seen method params bearer, exists text items next,
    api E seen (ApiRequest method ("/playlists/" +:+ playlist_id +:+ "/tracks") params bearer)
    = Some (ApiResponse 200 None text (TrackPage items (Some next))) /\
    next <> "".

(** * models.py: what a playlist derives from its tracks *)

(** [Playlist.total_duration_ms] *)
Definition total_duration_ms (self : Playlist.t) : Z :=
  foldl Z.add 0%Z (Track.duration_ms <$> Playlist.tracks self).

(** The order of [str]: by code point, which on UTF-8 text is the order of
    the bytes. *)
Definition str_le (a b : string) : Prop := String.leb a b = true.
Definition str_lt (a b : string) : Prop := String.ltb a b = true.
#[global] Instance str_le_dec : RelDecision str_le :=
  fun a b => decide (String.leb a b = true).

(** [Playlist.unique_artists]: the names go through a [set], whose order is
    lost in [sorted]. *)
Definition unique_artists (self : Playlist.t) : list string :=
  let artists :=
    remove_dups
      (track ← Playlist.tracks self; artist ← Track.artists track; [Artist.name artist]) in
  merge_sort str_le artists.

(** [PlaylistType.value] *)
Definition PlaylistType_value (playlist_type : PlaylistType) : string :=
  match playlist_type with
  | OWNED => "owned"
  | FOLLOWED => "followed"
  | COLLABORATIVE => "collaborative"
  end.

(** [external_urls.get(key, '')] *)
Definition urls_get (key : string) (external_urls : urls) : string :=
  match list_find (fun kv => fst kv = key) external_urls with
  | Some (_, (_, v)) => v
  | None => ""
  end.

(** * exporters/csv_exporter.py *)

(** The values a row holds. *)
Inductive cell := CStr (s : string) | CInt (z : Z) | CBool (b : bool) | CNone.

(** [x or ''] on an optional string. *)
Definition or_empty (x : option string) : string :=
  if truthy_str x then default "" x else "".

Definition fieldnames : list string :=
  ["playlist_id"; "playlist_name"; "playlist_description"; "playlist_type";
   "playlist_public"; "playlist_collaborative"; "playlist_owner";
   "playlist_follower_count"; "playlist_track_count"; "playlist_duration_ms";
   "track_id"; "track_name"; "track_uri"; "track_duration_ms"; "track_explicit";
   "track_popularity"; "track_number"; "disc_number"; "track_isrc";
   "track_added_at"; "artist_names"; "album_name"; "album_release_date";
   "album_type"; "spotify_playlist_url"; "spotify_track_url"].

(** The [row] dictionary of one track of a playlist, key by key. *)
Definition csv_row (playlist : Playlist.t) (track : Track.t) : list (string * cell) :=
  let artist_names := join ", " (Artist.name <$> Track.artists track) in
  [("playlist_id", CStr (Playlist.id playlist));
   ("playlist_name", CStr (Playlist.name playlist));
   ("playlist_description", CStr (or_empty (Playlist.description playlist)));
   ("playlist_type", CStr (PlaylistType_value (Playlist.playlist_type playlist)));
   ("playlist_public", CBool (Playlist.public playlist));
   ("playlist_collaborative", CBool (Playlist.collaborative playlist));
   ("playlist_owner", CStr (PlaylistOwner.display_name (Playlist.owner playlist)));
   ("playlist_follower_count", CInt (Playlist.follower_count playlist));
   ("playlist_track_count", CInt (Playlist.track_count playlist));
   ("playlist_duration_ms", CInt (total_duration_ms playlist));
   ("track_id", match Track.id track with Some id => CStr id | None => CNone end);
   ("track_name", CStr (Track.name track));
   ("track_uri", CStr (Track.uri track));
   ("track_duration_ms", CInt (Track.duration_ms track));
   ("track_explicit", CBool (Track.explicit track));
   ("track_popularity", CInt (Track.popularity track));
   ("track_number", CInt (Track.track_number track));
   ("disc_number", CInt (Track.disc_number track));
   ("track_isrc", CStr (or_empty (Track.isrc track)));
   ("track_added_at", CStr (default "" (Track.added_at track)));
   ("artist_names", CStr artist_names);
   ("album_name", CStr (Album.name (Track.album track)));
   ("album_release_date", CStr (Album.release_date (Track.album track)));
   ("album_type", CStr (Album.album_type (Track.album track)));
   ("spotify_playlist_url", CStr (urls_get "spotify" (Playlist.external_urls playlist)));
   ("spotify_track_url", CStr (urls_get "spotify" (Track.external_urls track)))].

(** [rowdict.get(key, '')] *)
Definition row_get (key : string) (rowdict : list (string * cell)) : cell :=
  match list_find (fun kv => fst kv = key) rowdict with
  | Some (_, (_, v)) => v
  | None => CStr ""
  end.

(** [csv.DictWriter.writerow]: a key outside the field names is refused, a
    missing one is written empty. *)
Definition writerow (rowdict : list (string * cell)) : exn + list cell :=
  let wrong_fields := filter (fun key => key ∉ fieldnames) (fst <$> rowdict) in
  match wrong_fields with
  | [] => inr ((fun key => row_get key rowdict) <$> fieldnames)
  | _ :: _ => inl (Exn ValueError "dict contains fields not in fieldnames")
  end.

(** The rows written for the tracks of one playlist, then of a list of
    playlists, up to the first row refused. *)
Fixpoint write_tracks (playlist : Playlist.t) (tracks : list Track.t)
    : exn + list (list cell) :=
  match tracks with
  | [] => inr []
  | track :: rest =>
      match writerow (csv_row playlist track) with
      | inl e => inl e
      | inr line =>
          match write_tracks playlist rest with
          | inl e => inl e
          | inr lines => inr (line :: lines)
          end
      end
  end.

Fixpoint write_playlists (playlists : list Playlist.t) : exn + list (list cell) :=
  match playlists with
  | [] => inr []
  | playlist :: rest =>
      match write_tracks playlist (Playlist.tracks playlist) with
      | inl e => inl e
      | inr lines =>
          match write_playlists rest with
          | inl e => inl e
          | inr more => inr (lines ++ more)
          end
      end
  end.

(** [CSVExporter._write_csv]: the header, then the rows. *)
Definition _write_csv (playlists : list Playlist.t) : exn + list (list cell) :=
  match write_playlists playlists with
  | inl e => inl e
  | inr lines => inr ((CStr <$> fieldnames) :: lines)
  end.

(** [CSVExporter.export_playlist] and [CSVExporter.export_playlists] *)
Definition export_playlist (playlist : Playlist.t) : exn + list (list cell) :=
  _write_csv [playlist].
Definition export_playlists (playlists : list Playlist.t) : exn + list (list cell) :=
  _write_csv playlists.

(** The cell of a written line under a field name. *)
Definition column (key : string) (line : list cell) : option cell :=
  match list_find (fun name => name = key) fieldnames with
  | Some (i, _) => line !! i
  | None => None
  end.

(** * interface.py *)

(** [f"{n:02d}"]: at least two characters, padded with a zero. *)
Definition pad2 (n : Z) : string :=
  if (0 <=? n)%Z && (n <? 10)%Z then "0" +:+ pretty n else pretty n.

(** [PlaylistSelector._format_duration] *)
Definition _format_duration (duration_ms : Z) : string :=
  let total_seconds := (duration_ms / 1000)%Z in
  let hours := (total_seconds / 3600)%Z in
  let minutes := ((total_seconds mod 3600) / 60)%Z in
  let seconds := (total_seconds mod 60)%Z in
  if (hours >? 0)%Z
  then pad2 hours +:+ ":" +:+ pad2 minutes +:+ ":" +:+ pad2 seconds
  else pad2 minutes +:+ ":" +:+ pad2 seconds.

(** * config.py: where the credentials come from *)

Module ConfigJson.
(** The keys of [spotify_config.json], [None] for an absent key; the
    values have the types [save_config] writes. *)
Record t := mk {
  client_id : option string; client_secret : option string;
  redirect_uri : option string; scopes : option (list string) }.
End ConfigJson.

(** What [config_file] holds: nothing, text that is not JSON, a JSON value
    that is not an object, or an object. *)
Inductive config_file :=
| NoFile
| NotJson
| NotAnObject
| Object (config_data : ConfigJson.t).

(** The fields [SpotifyConfig.__init__] sets before it loads. *)
Definition unconfigured : SpotifyConfig.t :=
  SpotifyConfig.mk None None "http://127.0.0.1:8000/callback"
    ["playlist-read-private"; "playlist-read-collaborative";
     "user-read-private"; "user-read-email"].

(** [SpotifyConfig.load_config], in the environment [environ] that
    [load_env_file] leaves. *)
Definition load_config (environ : gmap string string) (file : config_file)
    (self : SpotifyConfig.t) : exn + SpotifyConfig.t :=
  let client_id := environ !! "SPOTIFY_CLIENT_ID" in
  let client_secret := environ !! "SPOTIFY_CLIENT_SECRET" in
  let env_redirect_uri := environ !! "SPOTIFY_REDIRECT_URI" in
  let redirect_uri :=
    if truthy_str env_redirect_uri then default "" env_redirect_uri
    else SpotifyConfig.redirect_uri self in
  match file with
  | NoFile | NotJson =>
      inr (SpotifyConfig.mk client_id client_secret redirect_uri (SpotifyConfig.scopes self))
  | NotAnObject =>
      inl (Exn AttributeError "object has no attribute 'get'")
  | Object config_data =>
      inr (SpotifyConfig.mk
             (match ConfigJson.client_id config_data with
              | Some v => Some v
              | None => client_id
              end)
             (match ConfigJson.client_secret config_data with
              | Some v => Some v
              | None => client_secret
              end)
             (default redirect_uri (ConfigJson.redirect_uri config_data))
             (default (SpotifyConfig.scopes self) (ConfigJson.scopes config_data)))
  end.

(** [SpotifyConfig()] *)
Definition SpotifyConfig_init (environ : gmap string string) (file : config_file)
    : exn + SpotifyConfig.t :=
  load_config environ file unconfigured.

(** [SpotifyConfig.save_config]: the object written and the instance
    after it. *)
Definition save_config (client_id client_secret : string) (self : SpotifyConfig.t)
    : config_file * SpotifyConfig.t :=
  let config_data :=
    ConfigJson.mk (Some client_id) (Some client_secret)
      (Some (SpotifyConfig.redirect_uri self)) (Some (SpotifyConfig.scopes self)) in
  (Object config_data,
   SpotifyConfig.mk (Some client_id) (Some client_secret)
     (SpotifyConfig.redirect_uri self) (SpotifyConfig.scopes self)).

(** * interface.py: the selection menu *)

(** The terminal: the lines the user enters, and the two builtins applied
    to them, [str.strip] and [int] ([None] for a [ValueError]). *)
Record Console := mkConsole {
  input : nat -> string;
  strip : string -> string;
  int : string -> option Z }.

(** [s.split(",")] *)
Fixpoint split_comma (s : string) : list string :=
  match s with
  | EmptyString => [""]
  | String c rest =>
      if Ascii.eqb c (Ascii.ascii_of_nat 44) then "" :: split_comma rest
      else
        match split_comma rest with
        | piece :: pieces => String c piece :: pieces
        | [] => [String c ""]
        end
  end.

(** [[int(x.strip()) - 1 for x in pieces]], [None] when an [int] fails. *)
Fixpoint parse_indices (C : Console) (pieces : list string) : option (list Z) :=
  match pieces with
  | [] => Some []
  | x :: rest =>
      match int C (strip C x) with
      | None => None
      | Some n =>
          match parse_indices C rest with
          | None => None
          | Some indices => Some ((n - 1)%Z :: indices)
          end
      end
  end.

(** [PlaylistSelector._handle_individual_selection], from the line
    [reads] on: the playlists picked and the lines read. *)
Definition _handle_individual_selection (C : Console) (playlists : list Playlist.t)
    (reads : nat) : list Playlist.t * nat :=
  let input_str := strip C (input C reads) in
  if String.eqb input_str "" then ([], S reads)
  else
    match parse_indices C (split_comma input_str) with
    | None => ([], S reads)
    | Some indices =>
        (omap (fun index =>
                 if (0 <=? index)%Z && (index <? Z.of_nat (length playlists))%Z
                 then playlists !! Z.to_nat index
                 else None) indices,
         S reads)
    end.

#[global] Instance PlaylistType_eq_dec : EqDecision PlaylistType.
Proof. solve_decision. Defined.

(** [PlaylistSelector._handle_type_selection] *)
Definition _handle_type_selection (C : Console) (playlists : list Playlist.t)
    (reads : nat) : list Playlist.t * nat :=
  let type_choice := strip C (input C reads) in
  let type_map :=
    if String.eqb type_choice "1" then Some OWNED
    else if String.eqb type_choice "2" then Some FOLLOWED
    else if String.eqb type_choice "3" then Some COLLABORATIVE
    else None in
  match type_map with
  | None => ([], S reads)
  | Some selected_type =>
      (filter (fun p => Playlist.playlist_type p = selected_type) playlists, S reads)
  end.

(** How the menu ends: with a list, with the [TypeError] of [set] on a
    [Playlist], or not within the given number of choices. *)
Inductive selection :=
| Selected (playlists : list Playlist.t)
| Unhashable
| Pending.

(** [list(set(selected_playlists))]. [Playlist] is a plain [@dataclass]:
    equality is generated and the class is not frozen, so its [__hash__] is
    [None], and [set] raises [TypeError] at the first element. *)
Definition list_set (selected_playlists : list Playlist.t) : selection :=
  match selected_playlists with
  | [] => Selected []
  | _ :: _ => Unhashable
  end.

(** The [while True] loop of [select_playlists_interactive], for at most
    [fuel] choices. *)
Fixpoint menu (C : Console) (playlists : list Playlist.t) (fuel : nat) (reads : nat)
    (selected_playlists : list Playlist.t) : selection * nat :=
  match fuel with
  | O => (Pending, reads)
  | S fuel =>
      let choice := strip C (input C reads) in
      let reads := S reads in
      if String.eqb choice "0" then (Selected [], reads)
      else if String.eqb choice "1" then menu C playlists fuel reads selected_playlists
      else if String.eqb choice "2" then
        (* _handle_playlist_details reads one line and prints *)
        menu C playlists fuel (S reads) selected_playlists
      else if String.eqb choice "3" then
        let '(selected, reads) := _handle_individual_selection C playlists reads in
        menu C playlists fuel reads (selected_playlists ++ selected)
      else if String.eqb choice "4" then
        let '(selected, reads) := _handle_type_selection C playlists reads in
        menu C playlists fuel reads (selected_playlists ++ selected)
      else if String.eqb choice "5" then menu C playlists fuel reads playlists
      else if String.eqb choice "6" then menu C playlists fuel reads selected_playlists
      else if String.eqb choice "7" then menu C playlists fuel reads []
      else if String.eqb choice "8" then
        match selected_playlists with
        | _ :: _ => (list_set selected_playlists, reads)
        | [] => menu C playlists fuel reads selected_playlists
        end
      else menu C playlists fuel reads selected_playlists
  end.

(** [PlaylistSelector.select_playlists_interactive] *)
Definition select_playlists_interactive (C : Console) (playlists : list Playlist.t)
    (fuel : nat) (reads : nat) : selection * nat :=
  match playlists with
  | [] => (Selected [], reads)
  | _ :: _ => menu C playlists fuel reads []
  end.

(** * exporters/json_exporter.py *)

(** The documents handed to [json.dump]. *)
#[warnings="-register-all"] Inductive json_value :=
| JNull
| JBool (b : bool)
| JInt (z : Z)
| JStr (s : string)
| JList (l : list json_value)
| JObj (o : list (string * json_value)).

(** An optional string, a dictionary of strings, a list of them. *)
Definition json_opt (x : option string) : json_value :=
  match x with
  | Some s => JStr s
  | None => JNull
  end.
Definition json_dict (d : list (string * string)) : json_value :=
  JObj ((fun kv => (kv.1, JStr kv.2)) <$> d).
Definition json_dicts (l : list (list (string * string))) : json_value :=
  JList (json_dict <$> l).

(** [TrackType.value] *)
Definition TrackType_value (track_type : TrackType) : string :=
  match track_type with
  | TRACK => "track"
  | EPISODE => "episode"
  | LOCAL => "local"
  end.

(** [JSONExporter._serialize_artist] *)
Definition _serialize_artist (artist : Artist.t) : json_value :=
  JObj [("id", JStr (Artist.id artist));
        ("name", JStr (Artist.name artist));
        ("uri", JStr (Artist.uri artist));
        ("external_urls", json_dict (Artist.external_urls artist))].

(** [JSONExporter._serialize_album] *)
Definition _serialize_album (album : Album.t) : json_value :=
  JObj [("id", JStr (Album.id album));
        ("name", JStr (Album.name album));
        ("uri", JStr (Album.uri album));
        ("release_date", JStr (Album.release_date album));
        ("album_type", JStr (Album.album_type album));
        ("artists", JList (_serialize_artist <$> Album.artists album));
        ("images", json_dicts (Album.images album));
        ("external_urls", json_dict (Album.external_urls album))].

(** [JSONExporter._serialize_track] *)
Definition _serialize_track (track : Track.t) : json_value :=
  JObj [("id", json_opt (Track.id track));
        ("name", JStr (Track.name track));
        ("uri", JStr (Track.uri track));
        ("type", JStr (TrackType_value (Track.track_type track)));
        ("duration_ms", JInt (Track.duration_ms track));
        ("explicit", JBool (Track.explicit track));
        ("popularity", JInt (Track.popularity track));
        ("preview_url", json_opt (Track.preview_url track));
        ("track_number", JInt (Track.track_number track));
        ("disc_number", JInt (Track.disc_number track));
        ("isrc", json_opt (Track.isrc track));
        ("added_at", json_opt (Track.added_at track));
        ("added_by_user_id", json_opt (Track.added_by_user_id track));
        ("artists", JList (_serialize_artist <$> Track.artists track));
        ("album", _serialize_album (Track.album track));
        ("external_urls", json_dict (Track.external_urls track))].

(** [JSONExporter._serialize_playlist] *)
Definition _serialize_playlist (playlist : Playlist.t) : json_value :=
  JObj [("id", JStr (Playlist.id playlist));
        ("name", JStr (Playlist.name playlist));
        ("description", json_opt (Playlist.description playlist));
        ("uri", JStr (Playlist.uri playlist));
        ("type", JStr (PlaylistType_value (Playlist.playlist_type playlist)));
        ("public", JBool (Playlist.public playlist));
        ("collaborative", JBool (Playlist.collaborative playlist));
        ("owner",
         JObj [("id", JStr (PlaylistOwner.id (Playlist.owner playlist)));
               ("display_name", JStr (PlaylistOwner.display_name (Playlist.owner playlist)));
               ("uri", JStr (PlaylistOwner.uri (Playlist.owner playlist)));
               ("external_urls",
                json_dict (PlaylistOwner.external_urls (Playlist.owner playlist)))]);
        ("follower_count", JInt (Playlist.follower_count playlist));
        ("track_count", JInt (Playlist.track_count playlist));
        ("total_duration_ms", JInt (total_duration_ms playlist));
        ("unique_artists", JList (JStr <$> unique_artists playlist));
        ("images", json_dicts (Playlist.images playlist));
        ("external_urls", json_dict (Playlist.external_urls playlist));
        ("snapshot_id", JStr (Playlist.snapshot_id playlist));
        ("created_at", json_opt (Playlist.created_at playlist));
        ("modified_at", json_opt (Playlist.modified_at playlist));
        ("tracks", JList (_serialize_track <$> Playlist.tracks playlist))].

(** [JSONExporter.export_playlists], at the time [export_timestamp]. *)
Definition export_playlists_json (export_timestamp : datetime)
    (playlists : list Playlist.t) : json_value :=
  JObj [("export_timestamp", JStr export_timestamp);
        ("total_playlists", JInt (Z.of_nat (length playlists)));
        ("playlists", JList (_serialize_playlist <$> playlists))].

(** * Concrete runs

    A configured machine and small worlds on which the program is run. *)

Module Demo.

Definition cfg : SpotifyConfig.t :=
  SpotifyConfig.mk (Some "client") (Some "secret") "http://127.0.0.1:8000/callback"
    ["playlist-read-private"; "playlist-read-collaborative";
     "user-read-private"; "user-read-email"].

(** A world whose clock stands at 1000, whose ports are free, whose random
    source yields ["S0"], and whose browser, token endpoint and Web API
    are given. *)
Definition world (redirects : nat -> list query)
    (token_endpoint : list token_request -> token_request -> option token_response)
    (api : list api_request -> api_request -> option api_response) : Env :=
  mkEnv (fun _ => 1000%Z) (fun _ => "S0") (fun _ => true) redirects
    token_endpoint api (fun text => Some text).

Definition offline : Env :=
  world (fun _ => []) (fun _ _ => None) (fun _ _ => None).

(** A redirect with a code and a state, and one with an error. *)
Definition success (code state : string) : query :=
  {[ "code" := (code, []); "state" := (state, []) ]}.
Definition failure (error : string) : query :=
  {[ "error" := (error, []) ]}.

(** A listener just started. *)
Definition listening : HTTPServer.t := HTTPServer.mk None None None false true.

(** A service whose token file holds a token that expires at 5000. *)
Definition with_token : State :=
  SpotifyService_init cfg (Some (TokenManager.mk (Some "T1") (Some "R1") (Some 5000%Z))).

(** A service without a token file. *)
Definition fresh : State := SpotifyService_init cfg None.

(** A world in which two redirects reach the listener during its first
    sleep: a success with a forged state, then an error. *)
Definition forged_then_denied : Env :=
  world (fun k => match k with
                  | O => [success "code" "forged"; failure "access_denied"]
                  | _ => []
                  end)
    (fun _ _ => None) (fun _ _ => None).

(** The service after [start_server] and [get_authorization_url]. *)
Definition awaiting (E : Env) : State :=
  snd ((_ <- start_server E ;; get_authorization_url E) fresh).

(** A world in which the user declines: one redirect with an error. *)
Definition denied : Env :=
  world (fun _ => [failure "access_denied"]) (fun _ _ => None) (fun _ _ => None).



(** A token endpoint that refuses to refresh and accepts an exchange,
    with a browser that comes back with the generated state. *)
Definition refusing : Env :=
  world (fun _ => [success "code" "S0"])
    (fun _ token_data =>
       if bool_decide (grant_type token_data = Some "refresh_token")
       then Some (TokenResponse 400 "invalid_grant" None)
       else Some (TokenResponse 200 ""
                    (Some (mkTokenJson (Some (Some "T3")) (Some (Some "R3"))
                             (Some 3600%Z)))))
    (fun _ _ => None).

(** A library of playlists owned by ["ann"], each with one track. *)
Definition ann : OwnerJson.t := OwnerJson.mk "ann" "Ann" "spotify:user:ann" None.

Definition playlist (id : string) : PlaylistJson.t :=
  PlaylistJson.mk id id None ("spotify:playlist:" +:+ id) (Some true) (Some false) ann
    None 1 None None "snapshot".

Definition track (id : string) : ItemJson.t :=
  ItemJson.mk
    (Some (TrackJson.mk (Some id) id ("spotify:track:" +:+ id) None None None None None
             None None None None None))
    None None.

(** A Web API that pages through [collection] and answers for the
    playlists ["p1"], ["p2"] and ["p3"]; the details of ["p2"] fail. *)
Definition library_api (collection : list PlaylistJson.t)
    : list api_request -> api_request -> option api_response :=
  fun _ request =>
    let path := endpoint request in
    if String.eqb path "/me/playlists" then
      match int_param "limit" (params request), int_param "offset" (params request) with
      | Some limit, Some offset => Some (playlists_page collection limit offset)
      | _, _ => None
      end
    else if String.eqb path "/playlists/p1" then
      Some (ApiResponse 200 None "" (PlaylistBody (playlist "p1")))
    else if String.eqb path "/playlists/p1/tracks" then
      Some (ApiResponse 200 None "" (TrackPage [track "t1"] None))
    else if String.eqb path "/playlists/p3" then
      Some (ApiResponse 200 None "" (PlaylistBody (playlist "p3")))
    else if String.eqb path "/playlists/p3/tracks" then
      Some (ApiResponse 200 None "" (TrackPage [track "t3"] None))
    else Some (ApiResponse 500 None "Internal Server Error" OtherBody).

Definition library (collection : list PlaylistJson.t) : Env :=
  world (fun _ => []) (fun _ _ => None) (library_api collection).

Definition three : list PlaylistJson.t := [playlist "p1"; playlist "p2"; playlist "p3"].

(** A collection of [n] playlists, named by their rank. *)
Definition many (n : nat) : list PlaylistJson.t :=
  (fun i => playlist (pretty i)) <$> seq 0 n.

(** An authenticated service with a valid token and no profile. *)
Definition signed_in : State := set_authenticated true with_token.

(** A world in which nobody answers, and every reading of the clock is 200
    seconds after the one before. *)
Definition unanswered : Env :=
  mkEnv (fun k => (1000 + 200 * Z.of_nat k)%Z) (fun _ => "S0") (fun _ => true)
    (fun _ => []) (fun _ _ => None) (fun _ _ => None) (fun text => Some text).

(** A world in which the only request to reach the listener carries no
    parameter at all. *)
Definition stray : Env :=
  world (fun k => match k with O => [∅] | _ => [] end) (fun _ _ => None) (fun _ _ => None).

(** A Web API that answers for the playlist ["p1"] and pages through its
    entries. *)
Definition jukebox (collection : list ItemJson.t) : Env :=
  world (fun _ => []) (fun _ _ => None)
    (fun _ request =>
       if String.eqb (endpoint request) "/playlists/p1/tracks" then
         match int_param "limit" (params request), int_param "offset" (params request) with
         | Some limit, Some offset => Some (tracks_page collection limit offset)
         | _, _ => None
         end
       else if String.eqb (endpoint request) "/playlists/p1" then
         Some (ApiResponse 200 None "" (PlaylistBody (playlist "p1")))
       else None).

(** [n] entries named by their rank; every third one has lost its track. *)
Definition entries (n : nat) : list ItemJson.t :=
  (fun i => if i mod 3 =? 2 then ItemJson.mk None None None else track (pretty i))
    <$> seq 0 n.

(** A Web API whose every page names a next one. *)
Definition endless : Env :=
  world (fun _ => []) (fun _ _ => None)
    (fun _ _ => Some (ApiResponse 200 None "" (TrackPage [track "t"] (Some "next")))).

(** The playlists of [three], as the service parses them for a user it
    does not know. *)
Definition three_playlists : list Playlist.t := _parse_playlist_summary None <$> three.

(** A user who enters the given lines and then "0". The lines carry no
    white space around their text, so [strip] leaves them as they are,
    and none of them is read as a number. *)
Definition console (lines : list string) : Console :=
  mkConsole (fun k => default "0" (lines !! k)) (fun s => s) (fun _ => None).

(** A world in which the port of the listener is taken. *)
Definition crowded : Env :=
  mkEnv (fun _ => 1000%Z) (fun _ => "S0") (fun _ => false) (fun _ => [])
    (fun _ _ => None) (fun _ _ => None) (fun text => Some text).

(** A token endpoint that accepts the exchange and names no refresh
    token. *)
Definition grudging : Env :=
  world (fun _ => [success "code" "S0"])
    (fun _ _ => Some (TokenResponse 200 ""
                        (Some (mkTokenJson (Some (Some "T3")) None (Some 3600%Z)))))
    (fun _ _ => None).

(** A Web API that turns every request away for seven seconds. *)
Definition throttled : Env :=
  world (fun _ => []) (fun _ _ => None)
    (fun _ _ => Some (ApiResponse 429 (Some 7%Z) "" OtherBody)).


End Demo.

(** * Properties *)

(** ** Reasoning about runs *)

Ltac unfold_monad :=
  unfold bind, gets, modify, ret, raise, diverge, item in *.

Lemma truthy_str_spec (o : option string) :
  truthy_str o = true <-> exists v, o = Some v /\ v <> "".
Proof.
  destruct o as [v|]; simpl.
  - rewrite negb_true_iff. split.
    + intros Hv. exists v. split; [reflexivity|].
      intros ->. discriminate.
    + intros (w & [= <-] & Hw). destruct (String.eqb_spec v ""); congruence.
  - split; [discriminate | intros (v & ? & _); discriminate].
Qed.

Lemma truthy_num_spec (o : option Z) :
  truthy_num o = true <-> exists z, o = Some z /\ z <> 0%Z.
Proof.
  destruct o as [z|]; simpl.
  - rewrite negb_true_iff, Z.eqb_neq. split.
    + intros Hz. exists z. auto.
    + intros (w & [= <-] & Hw). assumption.
  - split; [discriminate | intros (z & ? & _); discriminate].
Qed.

(** ** The token store *)

(** The validity check at any clock reading, with the Python truthiness of
    the two fields written out. *)
Lemma is_token_valid_run (E : Env) (s : State) :
  let tm := token_manager s in
  let now := clock E (clock_reads s) in
  exists b,
    fst (is_token_valid E s) = Return b /\
    (b = true <->
     exists token expires_at,
       TokenManager.access_token tm = Some token /\ token <> "" /\
       TokenManager.expires_at tm = Some expires_at /\ expires_at <> 0%Z /\
       (now < expires_at - 300)%Z).
Proof.
  intros tm now. unfold is_token_valid, time_time. unfold_monad. fold tm.
  destruct (truthy_str (TokenManager.access_token tm)) eqn:Ha; simpl.
  - destruct (truthy_num (TokenManager.expires_at tm)) eqn:He; simpl.
    + apply truthy_str_spec in Ha as (token & Ha & Hne).
      apply truthy_num_spec in He as (e & He & Hz).
      rewrite He. simpl. eexists. split; [reflexivity|].
      rewrite Z.ltb_lt. fold now. split.
      * intros Hlt. exists token, e. auto.
      * intros (t' & e' & _ & _ & He' & _ & Hlt). congruence.
    + exists false. split; [reflexivity|]. split; [discriminate|].
      intros (t' & e' & _ & _ & He' & Hz & _).
      assert (truthy_num (TokenManager.expires_at tm) = true) as Ht
        by (apply truthy_num_spec; eauto).
      congruence.
  - exists false. split; [reflexivity|]. split; [discriminate|].
    intros (t' & e' & Ha' & Hne & _).
    assert (truthy_str (TokenManager.access_token tm) = true) as Ht
      by (apply truthy_str_spec; eauto).
    congruence.
Qed.

(** C3. At every state of the token store and every reading [now] of the
    epoch clock, [is_token_valid] returns, and it returns [True] exactly when
    an access token is present (a non-empty string) and
    [now < expires_at - 300]; in every other state, a missing access token
    or a missing expiry among them, it returns [False]. *)
Theorem is_token_valid_iff (E : Env) (s : State) (now : Z) :
  clock E (clock_reads s) = now ->
  (0 <= now)%Z ->
  exists b,
    fst (is_token_valid E s) = Return b /\
    (b = true <->
     exists token expires_at,
       TokenManager.access_token (token_manager s) = Some token /\ token <> "" /\
       TokenManager.expires_at (token_manager s) = Some expires_at /\
       (now < expires_at - 300)%Z).
Proof.
  intros Hnow Hpos.
  destruct (is_token_valid_run E s) as (b & Hrun & Hb).
  exists b. split; [assumption|]. rewrite Hb, Hnow. split.
  - intros (t & e & ? & ? & ? & ? & ?). exists t, e. auto.
  - intros (t & e & ? & ? & ? & ?). exists t, e.
    repeat split; try assumption. lia.
Qed.

(** ** The callback listener *)

(** C1, as the code has it. Whatever a listener has recorded, a first success
    included: a GET bearing [code] is answered 200 and replaces the recorded
    code and state by its own, leaving the error; a GET bearing [error] and
    no [code] is answered 400 and records the error, leaving code and state;
    a GET bearing neither is not answered and leaves the result as it is.
    Every GET marks the callback as received. *)
Theorem do_GET_last_writer_wins (q : query) (srv : HTTPServer.t) :
  HTTPServer.callback_received (fst (do_GET q srv)) = true /\
  (forall code others, q !! "code" = Some (code, others) ->
     snd (do_GET q srv) = Some 200%Z /\
     recorded (fst (do_GET q srv))
     = (Some code, fst <$> q !! "state", HTTPServer.auth_error srv)) /\
  (forall err others, q !! "code" = None -> q !! "error" = Some (err, others) ->
     snd (do_GET q srv) = Some 400%Z /\
     recorded (fst (do_GET q srv))
     = (HTTPServer.auth_code srv, HTTPServer.auth_state srv, Some err)) /\
  (q !! "code" = None -> q !! "error" = None ->
     snd (do_GET q srv) = None /\ recorded (fst (do_GET q srv)) = recorded srv).
Proof.
  unfold do_GET, recorded.
  destruct (q !! "code") as [[c cs]|] eqn:Hc.
  - split; [reflexivity|]. split; [|split; intros; discriminate].
    intros code others [= <- <-]. split; [reflexivity|].
    destruct (q !! "state") as [[st sts]|]; reflexivity.
  - destruct (q !! "error") as [[e es]|] eqn:He.
    + split; [reflexivity|]. split; [intros; discriminate|].
      split; [|intros; discriminate].
      intros err others _ [= <- <-]. split; reflexivity.
    + split; [reflexivity|]. split; [intros; discriminate|].
      split; [intros; discriminate|].
      intros _ _. split; reflexivity.
Qed.

(** A second redirect with a code replaces the code and the state that the
    first one recorded, so the result slot is not written at most once. *)
Lemma second_redirect_overwrites :
  ~ (forall (srv : HTTPServer.t) (q : query) (code : string),
       HTTPServer.auth_code srv = Some code ->
       recorded (fst (do_GET q srv)) = recorded srv).
Proof.
  intros H.
  specialize (H (fst (do_GET (Demo.success "A" "S0") Demo.listening))
                (Demo.success "B" "S1") "A" eq_refl).
  vm_compute in H. discriminate H.
Qed.

Lemma do_GET_last_writer_wins_witness :
  (Demo.success "B" "S1" !! "code" = Some ("B", [])) /\
  (snd (do_GET (Demo.success "B" "S1") (fst (do_GET (Demo.success "A" "S0") Demo.listening)))
   = Some 200%Z) /\
  (recorded (fst (do_GET (Demo.success "B" "S1")
                    (fst (do_GET (Demo.success "A" "S0") Demo.listening))))
   = (Some "B", Some "S1", None)).
Proof.
  split; [reflexivity|].
  pose proof (do_GET_last_writer_wins (Demo.success "B" "S1")
                (fst (do_GET (Demo.success "A" "S0") Demo.listening))) as (_ & H & _).
  destruct (H "B" [] eq_refl) as [H1 H2]. split; [exact H1|exact H2].
Defined.

Lemma is_token_valid_iff_witness :
  clock Demo.offline (clock_reads Demo.with_token) = 1000%Z /\
  (0 <= 1000)%Z /\
  exists b,
    fst (is_token_valid Demo.offline Demo.with_token) = Return b /\
    (b = true <->
     exists token expires_at,
       TokenManager.access_token (token_manager Demo.with_token) = Some token /\
       token <> "" /\
       TokenManager.expires_at (token_manager Demo.with_token) = Some expires_at /\
       (1000 < expires_at - 300)%Z).
Proof.
  split; [reflexivity|]. split; [lia|].
  apply (is_token_valid_iff Demo.offline Demo.with_token 1000); [reflexivity|lia].
Defined.

(** ** Awaiting the callback *)

Lemma wait_loop_no_server (E : Env) (fuel : nat) (start_time timeout : Z) (s : State) :
  SpotifyOAuthServer.server (oauth_server s) = None ->
  exists e, wait_loop E fuel start_time timeout s = (Raise e, s).
Proof.
  intros Hnone. eexists.
  destruct fuel; simpl; unfold server_attr; unfold_monad; rewrite Hnone; reflexivity.
Qed.

(** What [wait_for_callback] does once its loop has ended. *)
Lemma wait_for_callback_after_loop (E : Env) (fuel : nat) (timeout : Z)
    (s s' : State) (srv : HTTPServer.t) :
  wait_loop E fuel (clock E (clock_reads s)) timeout
    (set_clock_reads (S (clock_reads s)) s) = (Return tt, s') ->
  SpotifyOAuthServer.server (oauth_server s') = Some srv ->
  wait_for_callback E fuel timeout s =
  if truthy_str (HTTPServer.auth_error srv)
  then (Raise (AuthorizationDenied (default "" (HTTPServer.auth_error srv))), s')
  else
    match SpotifyOAuthServer.expected_state (oauth_server s') with
    | Some expected_state =>
        if bool_decide (HTTPServer.auth_state srv = Some expected_state)
        then (Return (HTTPServer.auth_code srv), s')
        else (Raise CsrfMismatch, s')
    | None => (Return (HTTPServer.auth_code srv), s')
    end.
Proof.
  intros Hloop Hsrv. unfold wait_for_callback. unfold_monad.
  destruct (SpotifyOAuthServer.server (oauth_server s)) eqn:Hs.
  - unfold time_time. rewrite Hloop. unfold server_attr. unfold_monad.
    rewrite Hsrv.
    destruct (truthy_str (HTTPServer.auth_error srv)); [reflexivity|].
    rewrite Hsrv.
    destruct (SpotifyOAuthServer.expected_state (oauth_server s'));
      [destruct (bool_decide _)|]; simpl; rewrite ?Hsrv; reflexivity.
  - destruct (wait_loop_no_server E fuel (clock E (clock_reads s)) timeout
                (set_clock_reads (S (clock_reads s)) s) Hs) as [e He].
    congruence.
Qed.

(** C2, as the code has it. For every generated state token, when the wait
    ends on a result that carries no error and a state other than the
    generated one (or no state), awaiting the result fails with
    [CsrfMismatch], whatever code the result carries. *)
Theorem state_mismatch_is_csrf (E : Env) (fuel : nat) (timeout : Z)
    (s s' : State) (srv : HTTPServer.t) (generated : string) :
  wait_loop E fuel (clock E (clock_reads s)) timeout
    (set_clock_reads (S (clock_reads s)) s) = (Return tt, s') ->
  SpotifyOAuthServer.server (oauth_server s') = Some srv ->
  SpotifyOAuthServer.expected_state (oauth_server s') = Some generated ->
  truthy_str (HTTPServer.auth_error srv) = false ->
  HTTPServer.auth_state srv <> Some generated ->
  wait_for_callback E fuel timeout s = (Raise CsrfMismatch, s').
Proof.
  intros Hloop Hsrv Hexp Herr Hne.
  rewrite (wait_for_callback_after_loop E fuel timeout s s' srv Hloop Hsrv).
  rewrite Herr, Hexp. rewrite bool_decide_eq_false_2 by assumption. reflexivity.
Qed.

(** A result that carries a state other than the generated one and an
    error fails with [AuthorizationDenied]: the error is looked at first. *)
Lemma state_mismatch_with_error_is_denied :
  ~ (forall (E : Env) (fuel : nat) (timeout : Z) (s s' : State)
            (srv : HTTPServer.t) (generated received : string),
       wait_loop E fuel (clock E (clock_reads s)) timeout
         (set_clock_reads (S (clock_reads s)) s) = (Return tt, s') ->
       SpotifyOAuthServer.server (oauth_server s') = Some srv ->
       SpotifyOAuthServer.expected_state (oauth_server s') = Some generated ->
       HTTPServer.auth_state srv = Some received ->
       received <> generated ->
       fst (wait_for_callback E fuel timeout s) = Raise CsrfMismatch).
Proof.
  intros H.
  pose (E := Demo.forged_then_denied).
  pose (s := Demo.awaiting E).
  pose (s' := snd (wait_loop E 5 (clock E (clock_reads s)) 300
                     (set_clock_reads (S (clock_reads s)) s))).
  specialize (H E 5%nat 300%Z s s'
                (HTTPServer.mk (Some "code") (Some "access_denied") (Some "forged") true true)
                "S0" "forged").
  assert (fst (wait_for_callback E 5 300 s) = Raise CsrfMismatch) as Hbad.
  { apply H.
    - vm_compute. reflexivity.
    - vm_compute. reflexivity.
    - vm_compute. reflexivity.
    - reflexivity.
    - discriminate. }
  vm_compute in Hbad. discriminate Hbad.
Qed.

Lemma state_mismatch_is_csrf_witness :
  let E := Demo.world (fun _ => [Demo.success "code" "forged"])
             (fun _ _ => None) (fun _ _ => None) in
  let s := Demo.awaiting E in
  let s' := snd (wait_loop E 5 (clock E (clock_reads s)) 300
                   (set_clock_reads (S (clock_reads s)) s)) in
  (SpotifyOAuthServer.expected_state (oauth_server s') = Some "S0") /\
  (HTTPServer.auth_state <$> SpotifyOAuthServer.server (oauth_server s') = Some (Some "forged")) /\
  (wait_for_callback E 5 300 s = (Raise CsrfMismatch, s')).
Proof.
  intros E s s'.
  split; [vm_compute; reflexivity|]. split; [vm_compute; reflexivity|].
  apply (state_mismatch_is_csrf E 5 300 s s'
           (HTTPServer.mk (Some "code") None (Some "forged") true true) "S0").
  - vm_compute. reflexivity.
  - vm_compute. reflexivity.
  - vm_compute. reflexivity.
  - reflexivity.
  - discriminate.
Defined.

(** ** Ownership classification *)

(** C5. With the profile of the authenticated user at hand, a playlist
    whose owner is that user is [COLLABORATIVE] when its collaborative flag
    is true and [OWNED] when the flag is false (or absent), and a playlist
    of any other owner is [FOLLOWED], whatever the flag. *)
Theorem classification (profile : UserProfile.t) (data : PlaylistJson.t) :
  let owner_id := OwnerJson.id (PlaylistJson.owner data) in
  let flag := default false (PlaylistJson.collaborative data) in
  let playlist := _parse_playlist_summary (Some profile) data in
  (owner_id = UserProfile.id profile -> flag = true ->
     Playlist.playlist_type playlist = COLLABORATIVE) /\
  (owner_id = UserProfile.id profile -> flag = false ->
     Playlist.playlist_type playlist = OWNED) /\
  (owner_id <> UserProfile.id profile ->
     Playlist.playlist_type playlist = FOLLOWED).
Proof.
  intros owner_id flag playlist. unfold playlist, _parse_playlist_summary. simpl.
  fold owner_id flag. repeat split.
  - intros -> ->. rewrite bool_decide_eq_true_2; reflexivity.
  - intros -> ->. rewrite bool_decide_eq_true_2; reflexivity.
  - intros Hne. rewrite bool_decide_eq_false_2; [reflexivity|]. congruence.
Qed.

Lemma classification_witness :
  let profile := UserProfile.mk "ann" "Ann" "" "" 0 "spotify:user:ann" [] [] "free" in
  (OwnerJson.id (PlaylistJson.owner (Demo.playlist "p1")) = UserProfile.id profile) /\
  (default false (PlaylistJson.collaborative (Demo.playlist "p1")) = false) /\
  (Playlist.playlist_type (_parse_playlist_summary (Some profile) (Demo.playlist "p1"))
   = OWNED).
Proof.
  intros profile. split; [reflexivity|]. split; [reflexivity|].
  destruct (classification profile (Demo.playlist "p1")) as (_ & Howned & _).
  apply Howned; reflexivity.
Defined.

(** ** What a run leaves alone *)

Section Frame.

Context {F : Type} (f : State -> F).

Abbreviation preserves := (preserves f).

Lemma preserves_ret {A} (a : A) : preserves (ret a).
Proof. intros s. reflexivity. Qed.

Lemma preserves_raise {A} (e : exn) : preserves (@raise A e).
Proof. intros s. reflexivity. Qed.

Lemma preserves_diverge {A} : preserves (@diverge A).
Proof. intros s. reflexivity. Qed.

Lemma preserves_gets {A} (g : State -> A) : preserves (gets g).
Proof. intros s. reflexivity. Qed.

Lemma preserves_item {A} (k : string) (o : option A) : preserves (item k o).
Proof. intros s. destruct o; reflexivity. Qed.

Lemma preserves_modify (g : State -> State) :
  (forall s, f (g s) = f s) -> preserves (modify g).
Proof. intros Hg s. apply Hg. Qed.

Lemma preserves_bind {A B} (m : M A) (k : A -> M B) :
  preserves m -> (forall a, preserves (k a)) -> preserves (bind m k).
Proof.
  intros Hm Hk s. unfold bind. specialize (Hm s).
  destruct (m s) as [[a| e |] s1]; simpl in *; [|assumption..].
  rewrite (Hk a s1). assumption.
Qed.

Lemma preserves_try_except {A} (m : M A) (h : exn -> M A) :
  preserves m -> (forall e, preserves (h e)) -> preserves (try_except m h).
Proof.
  intros Hm Hh s. unfold try_except. specialize (Hm s).
  destruct (m s) as [[a| e |] s1]; simpl in *; [assumption| |assumption].
  rewrite (Hh e s1). assumption.
Qed.

Lemma preserves_try_finally {A} (m : M A) (c : M unit) :
  preserves m -> preserves c -> preserves (try_finally m c).
Proof.
  intros Hm Hc s. unfold try_finally. specialize (Hm s).
  destruct (m s) as [[a| e |] s1]; simpl in *; [| |assumption].
  - specialize (Hc s1). destruct (c s1) as [[[]| e |] s2]; simpl in *; congruence.
  - specialize (Hc s1). destruct (c s1) as [[[]| e' |] s2]; simpl in *; congruence.
Qed.

End Frame.

(** Splits a frame goal along the structure of the computation. *)
Ltac frame_step :=
  match goal with
  | |- preserves _ (bind _ _) => apply preserves_bind; [|intros ?]
  | |- preserves _ (ret _) => apply preserves_ret
  | |- preserves _ (raise _) => apply preserves_raise
  | |- preserves _ diverge => apply preserves_diverge
  | |- preserves _ (gets _) => apply preserves_gets
  | |- preserves _ (item _ _) => apply preserves_item
  | |- preserves _ (modify _) => apply preserves_modify; intros ?; reflexivity
  | |- preserves _ (try_except _ _) => apply preserves_try_except; [|intros ?]
  | |- preserves _ (try_finally _ _) => apply preserves_try_finally
  | |- preserves _ (if ?b then _ else _) => destruct b
  | |- preserves _ (match ?x with _ => _ end) => destruct x
  | |- preserves _ (time_time _) => intros ?; reflexivity
  | |- preserves _ _ => progress cbv zeta
  end.

Ltac frame := repeat (frame_step || (solve [eauto with frame])).

Create HintDb frame.

Section Frames.

Context (E : Env).

(** The clock, the token store and the listener never post to the token
    endpoint. *)
Lemma time_time_posts : preserves token_posts (time_time E).
Proof. intros s. reflexivity. Qed.
Hint Resolve time_time_posts : frame.


Lemma has_refresh_token_posts : preserves token_posts has_refresh_token.
Proof. unfold has_refresh_token. frame. Qed.

Lemma start_server_posts : preserves token_posts (start_server E).
Proof. unfold start_server. frame. Qed.

Lemma stop_server_posts : preserves token_posts stop_server.
Proof. unfold stop_server. frame. Qed.

Lemma get_authorization_url_posts : preserves token_posts (get_authorization_url E).
Proof. unfold get_authorization_url, get_scope_string. frame. Qed.

Lemma webbrowser_open_posts (u : auth_url) : preserves token_posts (webbrowser_open u).
Proof. unfold webbrowser_open. frame. Qed.

Lemma server_attr_preserves {F A} (f : State -> F) (attribute : HTTPServer.t -> A) :
  preserves f (server_attr attribute).
Proof. unfold server_attr. frame. Qed.
Hint Resolve server_attr_preserves : frame.

Lemma sleep_posts : preserves token_posts (sleep E).
Proof. unfold sleep. frame. Qed.
Hint Resolve sleep_posts : frame.

Lemma wait_loop_posts (fuel : nat) (start_time timeout : Z) :
  preserves token_posts (wait_loop E fuel start_time timeout).
Proof. induction fuel as [|fuel IH]; simpl; frame. Qed.
Hint Resolve wait_loop_posts : frame.


End Frames.

(** ** The listener while the flow waits *)

Lemma do_GET_received (q : query) (srv : HTTPServer.t) :
  HTTPServer.callback_received (fst (do_GET q srv)) = true.
Proof.
  unfold do_GET.
  destruct (q !! "code") as [[c cs]|]; [reflexivity|].
  destruct (q !! "error") as [[e es]|]; reflexivity.
Qed.

Lemma serve_received (qs : list query) (srv : HTTPServer.t) :
  qs <> [] \/ HTTPServer.callback_received srv = true ->
  HTTPServer.callback_received (serve qs srv) = true.
Proof.
  revert srv. induction qs as [|q qs IH]; intros srv [Hne|Hrec].
  - congruence.
  - assumption.
  - simpl. apply IH. right. apply do_GET_received.
  - simpl. apply IH. right. apply do_GET_received.
Qed.



(** ** Running the authentication flow *)

Lemma bind_inv {A B} (m : M A) (k : A -> M B) (s s' : State) (r : outcome B) :
  bind m k s = (r, s') ->
  (exists a s1, m s = (Return a, s1) /\ k a s1 = (r, s')) \/
  (exists e, m s = (Raise e, s') /\ r = Raise e) \/
  (m s = (Diverge, s') /\ r = Diverge).
Proof.
  unfold bind. destruct (m s) as [[a|e|] s1].
  - intros H. left. eauto.
  - intros [= <- <-]. right. left. eauto.
  - intros [= <- <-]. right. right. auto.
Qed.

(** Uses a frame lemma on a run. *)
Lemma preserves_run {F A} (f : State -> F) (m : M A) (s s' : State) (r : outcome A) :
  preserves f m -> m s = (r, s') -> f s' = f s.
Proof. intros Hm Hrun. specialize (Hm s). rewrite Hrun in Hm. exact Hm. Qed.

Lemma stop_server_run (s : State) :
  exists s', stop_server s = (Return tt, s') /\
    listener_error s' = listener_error s /\ token_posts s' = token_posts s.
Proof.
  unfold stop_server, listener_error. unfold_monad.
  destruct (SpotifyOAuthServer.server (oauth_server s)) as [srv|] eqn:Hs.
  - eexists. split; [reflexivity|]. simpl. auto.
  - eexists. split; [reflexivity|]. rewrite Hs. auto.
Qed.

(** [try: body  except Exception: return False  finally: stop_server()] *)
Lemma guarded_run (body : M bool) (s : State) :
  try_finally (try_except body (fun e => ret false)) stop_server s =
  match body s with
  | (Return b, s1) => (Return b, snd (stop_server s1))
  | (Raise e, s1) => (Return false, snd (stop_server s1))
  | (Diverge, s1) => (Diverge, s1)
  end.
Proof.
  unfold try_finally, try_except.
  destruct (body s) as [[b|e|] s1]; simpl.
  - destruct (stop_server_run s1) as (s2 & -> & _). reflexivity.
  - destruct (stop_server_run s1) as (s2 & -> & _). reflexivity.
  - reflexivity.
Qed.





Section Flow.

Context (E : Env).

Lemma post_token_listener (token_data : token_request) :
  preserves oauth_server (post_token E token_data).
Proof. unfold post_token. frame. Qed.
Hint Resolve post_token_listener : frame.


Lemma save_tokens_listener (a r : option string) (x : Z) :
  preserves oauth_server (save_tokens E a r x).
Proof. unfold save_tokens. frame. Qed.


End Flow.

Section Refresh.

Context (E : Env).

Lemma post_token_binds (token_data : token_request) :
  preserves binds (post_token E token_data).
Proof. unfold post_token. frame. Qed.

Lemma post_token_store (token_data : token_request) :
  preserves token_manager (post_token E token_data).
Proof. unfold post_token. frame. Qed.

(** Posting a form that is not an authorization-code grant adds no
    exchange to the log. *)
Lemma post_token_exchanges (token_data : token_request) :
  grant_type token_data <> Some "authorization_code" ->
  preserves (fun s => code_exchanges (token_posts s)) (post_token E token_data).
Proof.
  intros Hgrant s. unfold post_token. unfold_monad. simpl.
  assert (code_exchanges (token_posts s ++ [token_data]) = code_exchanges (token_posts s))
    as Hlog.
  { unfold code_exchanges. rewrite filter_app, filter_cons_False by assumption.
    rewrite filter_nil. apply app_nil_r. }
  destruct (token_endpoint E (token_posts s) token_data); simpl; exact Hlog.
Qed.

Hint Resolve post_token_binds post_token_store : frame.

Lemma refresh_access_token_binds (refresh_token : option string) :
  preserves binds (refresh_access_token E refresh_token).
Proof. unfold refresh_access_token, response_json. frame. Qed.


Lemma refresh_access_token_exchanges (refresh_token : option string) :
  preserves (fun s => code_exchanges (token_posts s))
    (refresh_access_token E refresh_token).
Proof.
  unfold refresh_access_token, response_json.
  apply preserves_bind; [frame|intros c].
  apply preserves_bind; [|intros response; frame].
  apply post_token_exchanges. discriminate.
Qed.

Lemma save_tokens_binds (a r : option string) (x : Z) : preserves binds (save_tokens E a r x).
Proof. unfold save_tokens. frame. Qed.

Lemma save_tokens_exchanges (a r : option string) (x : Z) :
  preserves (fun s => code_exchanges (token_posts s)) (save_tokens E a r x).
Proof. unfold save_tokens. frame. Qed.

Hint Resolve refresh_access_token_binds refresh_access_token_exchanges
  save_tokens_binds save_tokens_exchanges : frame.



Lemma is_token_valid_preserves {F} (f : State -> F) :
  (forall n s, f (set_clock_reads n s) = f s) -> preserves f (is_token_valid E).
Proof.
  intros Hf. unfold is_token_valid. frame.
  intros s. apply Hf.
Qed.

(** Every run of [is_token_valid] returns. *)
Lemma is_token_valid_returns (s : State) :
  exists b s', is_token_valid E s = (Return b, s').
Proof.
  unfold is_token_valid, time_time. unfold_monad.
  destruct (negb _ || negb _); [eauto|].
  destruct (TokenManager.expires_at (token_manager s)); eauto.
Qed.

(** [_new_authentication] catches what its flow raises. *)
Lemma new_authentication_never_raises (fuel : nat) (s : State) (e : exn) :
  fst (_new_authentication E fuel s) <> Raise e.
Proof.
  unfold _new_authentication. rewrite guarded_run.
  match goal with
  | |- context [match ?run with _ => _ end] => destruct run as [[b|e'|] s1]
  end; discriminate.
Qed.

End Refresh.




(** ** Refreshing the token *)





(** ** The service object during authentication *)

Section ServiceFields.

Context (E : Env).

(** Nothing in [oauth_server.py] or [config.py] touches the fields of
    the service. *)
Hint Resolve server_attr_preserves : frame.

Lemma has_refresh_token_service : preserves service_fields has_refresh_token.
Proof. unfold has_refresh_token. frame. Qed.

Lemma is_token_valid_service : preserves service_fields (is_token_valid E).
Proof. apply is_token_valid_preserves. reflexivity. Qed.

Lemma start_server_service : preserves service_fields (start_server E).
Proof. unfold start_server. frame. Qed.

Lemma stop_server_service : preserves service_fields stop_server.
Proof. unfold stop_server. frame. Qed.

Lemma get_authorization_url_service : preserves service_fields (get_authorization_url E).
Proof. unfold get_authorization_url, get_scope_string. frame. Qed.

Lemma webbrowser_open_service (u : auth_url) : preserves service_fields (webbrowser_open u).
Proof. unfold webbrowser_open. frame. Qed.

Lemma sleep_service : preserves service_fields (sleep E).
Proof. unfold sleep. frame. Qed.
Hint Resolve sleep_service : frame.

Lemma wait_loop_service (fuel : nat) (start_time timeout : Z) :
  preserves service_fields (wait_loop E fuel start_time timeout).
Proof. induction fuel as [|fuel IH]; simpl; frame. Qed.
Hint Resolve wait_loop_service : frame.

Lemma wait_for_callback_service (fuel : nat) (timeout : Z) :
  preserves service_fields (wait_for_callback E fuel timeout).
Proof. unfold wait_for_callback. frame. Qed.

Lemma post_token_service (token_data : token_request) :
  preserves service_fields (post_token E token_data).
Proof. unfold post_token. frame. Qed.
Hint Resolve post_token_service : frame.

Lemma exchange_service (auth_code : option string) :
  preserves service_fields (exchange_code_for_tokens E auth_code).
Proof. unfold exchange_code_for_tokens, response_json. frame. Qed.

Lemma refresh_access_token_service (refresh_token : option string) :
  preserves service_fields (refresh_access_token E refresh_token).
Proof. unfold refresh_access_token, response_json. frame. Qed.

Lemma save_tokens_service (a r : option string) (x : Z) :
  preserves service_fields (save_tokens E a r x).
Proof. unfold save_tokens. frame. Qed.

Hint Resolve has_refresh_token_service is_token_valid_service start_server_service
  stop_server_service get_authorization_url_service webbrowser_open_service
  wait_for_callback_service exchange_service refresh_access_token_service
  save_tokens_service : frame.

Lemma _refresh_token_service : preserves service_fields (_refresh_token E).
Proof. unfold _refresh_token. frame. Qed.

Lemma _new_authentication_service (fuel : nat) :
  preserves service_fields (_new_authentication E fuel).
Proof. unfold _new_authentication. frame. Qed.

Hint Resolve _refresh_token_service _new_authentication_service : frame.

Lemma SpotifyAuthenticator_authenticate_service (fuel : nat) :
  preserves service_fields (SpotifyAuthenticator_authenticate E fuel).
Proof. unfold SpotifyAuthenticator_authenticate. frame. Qed.

(** A request to the Web API changes the clock count and the request log
    only. *)
Lemma _make_request_service (method endpoint : string) (params : list (string * param)) :
  preserves service_fields (_make_request E method endpoint params).
Proof. unfold _make_request, get_access_token. frame. Qed.
Hint Resolve _make_request_service : frame.

Lemma get_user_profile_service : preserves service_fields (get_user_profile E).
Proof. unfold get_user_profile. frame. Qed.

(** [_make_request] and [get_user_profile] have no loop. *)
Lemma _make_request_halts (method endpoint : string) (params : list (string * param))
    (s : State) :
  fst (_make_request E method endpoint params s) <> Diverge.
Proof.
  unfold _make_request, get_access_token. unfold_monad.
  destruct (is_token_valid_returns E s) as (valid & s1 & ->).
  destruct valid; simpl; [|discriminate].
  destruct (truthy_str _); simpl; [|discriminate].
  destruct (api E _ _) as [response|]; [|discriminate].
  repeat match goal with
         | |- context [if ?b then _ else _] => destruct b; simpl
         end; discriminate.
Qed.

Lemma get_user_profile_halts (s : State) : fst (get_user_profile E s) <> Diverge.
Proof.
  unfold get_user_profile. unfold_monad.
  destruct (_authenticated s); simpl; [|discriminate].
  pose proof (_make_request_halts "GET" "/me" [] s) as Hreq.
  destruct (_make_request E "GET" "/me" [] s) as [[data|e|] s1]; simpl in *.
  - destruct data; discriminate.
  - discriminate.
  - congruence.
Qed.

End ServiceFields.

(** C9. A playlist parsed while no profile is known is [FOLLOWED], whoever
    owns it and whatever its flag; and that is the state of a service whose
    authentication succeeded and whose profile request then raised: it is
    authenticated, has no profile, and classifies every playlist as
    [FOLLOWED]. *)
Theorem unknown_user_means_followed (E : Env) (fuel : nat) (data : PlaylistJson.t) :
  Playlist.playlist_type (_parse_playlist_summary None data) = FOLLOWED /\
  (forall (s s1 : State) (e : exn),
     _user_profile s = None ->
     fst (is_configured s) = Return true ->
     SpotifyAuthenticator_authenticate E fuel s = (Return true, s1) ->
     fst (get_user_profile E (set_authenticated true s1)) = Raise e ->
     fst (SpotifyService_authenticate E fuel s) = Return true /\
     _authenticated (snd (SpotifyService_authenticate E fuel s)) = true /\
     _user_profile (snd (SpotifyService_authenticate E fuel s)) = None /\
     Playlist.playlist_type
       (_parse_playlist_summary (_user_profile (snd (SpotifyService_authenticate E fuel s)))
          data) = FOLLOWED).
Proof.
  split; [reflexivity|].
  intros s s1 e Hnone Hconf Hauth Hload.
  pose proof (preserves_run service_fields _ _ _ _
                (SpotifyAuthenticator_authenticate_service E fuel) Hauth) as Hs1.
  unfold SpotifyService_authenticate, is_configured in *. unfold_monad.
  simpl in Hconf. injection Hconf as Hconf. rewrite Hconf. simpl.
  rewrite Hauth. simpl. unfold try_except.
  pose proof (get_user_profile_service E (set_authenticated true s1)) as Hs2.
  destruct (get_user_profile E (set_authenticated true s1)) as [[p|e'|] s2];
    simpl in Hload; try discriminate.
  simpl in *. unfold service_fields in *. simpl in *.
  injection Hs1 as _ Hp1. injection Hs2 as Ha2 Hp2.
  assert (_user_profile s2 = None) as Hp by congruence.
  rewrite Hp. repeat split. exact Ha2.
Qed.

Lemma unknown_user_means_followed_witness :
  (_user_profile Demo.with_token = None) /\
  (fst (is_configured Demo.with_token) = Return true) /\
  (SpotifyAuthenticator_authenticate Demo.offline 5 Demo.with_token
   = (Return true, snd (SpotifyAuthenticator_authenticate Demo.offline 5 Demo.with_token))) /\
  (fst (get_user_profile Demo.offline
          (set_authenticated true
             (snd (SpotifyAuthenticator_authenticate Demo.offline 5 Demo.with_token))))
   = Raise (Exn ConnectionError "Cannot connect to host")) /\
  (fst (SpotifyService_authenticate Demo.offline 5 Demo.with_token) = Return true) /\
  (_user_profile (snd (SpotifyService_authenticate Demo.offline 5 Demo.with_token)) = None).
Proof.
  assert (SpotifyAuthenticator_authenticate Demo.offline 5 Demo.with_token
          = (Return true, snd (SpotifyAuthenticator_authenticate Demo.offline 5 Demo.with_token)))
    as Hauth by (vm_compute; reflexivity).
  assert (fst (get_user_profile Demo.offline
                 (set_authenticated true
                    (snd (SpotifyAuthenticator_authenticate Demo.offline 5 Demo.with_token))))
          = Raise (Exn ConnectionError "Cannot connect to host"))
    as Hload by (vm_compute; reflexivity).
  split; [reflexivity|]. split; [reflexivity|]. split; [exact Hauth|].
  split; [exact Hload|].
  destruct (unknown_user_means_followed Demo.offline 5
              (PlaylistJson.mk "p" "n" None "u" None None (OwnerJson.mk "o" "d" "u" None)
                 None 0 None None "snap")) as [_ H].
  destruct (H Demo.with_token _ _ eq_refl eq_refl Hauth Hload) as (H1 & _ & H3 & _).
  split; [exact H1|exact H3].
Defined.

(** ** Calls before authentication *)

(** C10. While the service is not authenticated, each of the four retrieval
    calls raises [AuthenticationError] and leaves the whole state as it
    was: no request is logged, no field of the service changes. And the
    service stays unauthenticated through every [authenticate] that does not
    return [True]. *)
Theorem unauthenticated_calls_raise (E : Env) (fuel : nat) (limit : option Z)
    (playlist_id : string) (s : State) :
  _authenticated s = false ->
  get_user_profile E s = (Raise (Exn AuthenticationError "Not authenticated"), s) /\
  get_user_playlists E fuel limit s = (Raise (Exn AuthenticationError "Not authenticated"), s) /\
  get_playlist_details E fuel playlist_id s
  = (Raise (Exn AuthenticationError "Not authenticated"), s) /\
  get_playlist_tracks E fuel playlist_id s
  = (Raise (Exn AuthenticationError "Not authenticated"), s) /\
  (fst (SpotifyService_authenticate E fuel s) <> Return true ->
   _authenticated (snd (SpotifyService_authenticate E fuel s)) = false).
Proof.
  intros Hno. split; [|split; [|split; [|split]]].
  1-4: unfold get_user_profile, get_user_playlists, get_playlist_details,
         get_playlist_tracks; unfold_monad; rewrite Hno; reflexivity.
  unfold SpotifyService_authenticate, is_configured. unfold_monad. simpl.
  destruct (truthy_str _ && truthy_str _); simpl; [|intros _; exact Hno].
  pose proof (SpotifyAuthenticator_authenticate_service E fuel s) as Hframe.
  destruct (SpotifyAuthenticator_authenticate E fuel s) as [[success|e|] s1]; simpl in *.
  - injection Hframe as Ha _. destruct success; simpl; [|congruence].
    unfold try_except.
    pose proof (get_user_profile_halts E (set_authenticated true s1)) as Hhalts.
    destruct (get_user_profile E (set_authenticated true s1)) as [[p|e|] s2];
      simpl in *; congruence.
  - injection Hframe as Ha _. congruence.
  - injection Hframe as Ha _. congruence.
Qed.

Lemma unauthenticated_calls_raise_witness :
  _authenticated Demo.fresh = false /\
  get_user_playlists Demo.offline 10 None Demo.fresh
  = (Raise (Exn AuthenticationError "Not authenticated"), Demo.fresh).
Proof.
  split; [reflexivity|].
  apply (unauthenticated_calls_raise Demo.offline 10 None "p1" Demo.fresh). reflexivity.
Defined.

(** ** Loading the tracks of the playlists *)




(** ** Pagination *)

Lemma ceil_div_le (a b x : nat) : 0 < b -> ceil_div a b <= x <-> a <= x * b.
Proof.
  intros Hb. unfold ceil_div.
  pose proof (Nat.div_mod_eq (a + b - 1) b) as Hdiv.
  pose proof (Nat.mod_upper_bound (a + b - 1) b) as Hmod.
  split; intros H; nia.
Qed.

Lemma take_min_length {A} (l : list A) (n : nat) : take (n `min` length l) l = take n l.
Proof.
  destruct (Nat.le_gt_cases n (length l)) as [Hle|Hgt].
  - rewrite Nat.min_l by assumption. reflexivity.
  - rewrite Nat.min_r by lia. rewrite !take_ge by lia. reflexivity.
Qed.

Lemma take_same_min {A} (l : list A) (n m : nat) :
  n `min` length l = m `min` length l -> take n l = take m l.
Proof.
  intros H. rewrite <- (take_min_length l n), <- (take_min_length l m), H. reflexivity.
Qed.

(** The playlist loop against a paged collection: [pages] requests, one per
    page, and the items wanted, in order. *)
Section Paging.

Context (E : Env) (collection : list PlaylistJson.t) (token : string).
Hypothesis Hserves : serves_playlists E collection.

Lemma page_request_run (s : State) (limit offset : Z) :
  token_stays_valid E s token ->
  _make_request E "GET" "/me/playlists"
    [("limit", PInt limit); ("offset", PInt offset)] s
  = (Return (PlaylistPage (take (Z.to_nat limit) (drop (Z.to_nat offset) collection))
               (if (offset + limit <? Z.of_nat (length collection))%Z
                then Some "https://api.spotify.com/v1/me/playlists?next"
                else None)),
     set_api_calls
       (api_calls s ++ [ApiRequest "GET" "/me/playlists"
                          [("limit", PInt limit); ("offset", PInt offset)] token])
       (set_clock_reads (S (clock_reads s)) s)).
Proof.
  intros (Htoken & Hne & e & He & Hnz & Hclock).
  unfold _make_request, get_access_token, is_token_valid, time_time. unfold_monad.
  rewrite Htoken, He. simpl.
  destruct (String.eqb_spec token ""); [contradiction|]. simpl.
  destruct (Z.eqb_spec e 0); [contradiction|]. simpl.
  specialize (Hclock (clock_reads s)). apply Z.ltb_lt in Hclock. rewrite Hclock.
  simpl. rewrite Htoken. simpl.
  destruct (String.eqb_spec token ""); [contradiction|]. simpl.
  rewrite Hserves. reflexivity.
Qed.

Context (limit : option Z).
Hypothesis Hlimit : forall l, limit = Some l -> (1 <= l)%Z.

Let size := page_size limit.
Let target := wanted (length collection) limit.
Let pages := 1 `max` ceil_div target size.

Lemma size_pos : 0 < size.
Proof.
  unfold size, page_size. destruct limit as [l|]; [|lia].
  specialize (Hlimit l eq_refl). lia.
Qed.

Lemma loop_run (fuel j : nat) (s : State) :
  token_stays_valid E s token ->
  j < pages -> pages - j <= fuel ->
  exists s',
    playlists_loop E fuel limit (Z.of_nat size) (Z.of_nat (j * size))
      (_parse_playlist_summary (_user_profile s) <$> take (j * size) collection) s
    = (Return (_parse_playlist_summary (_user_profile s)
                 <$> take (pages * size) collection), s') /\
    api_calls s' = api_calls s ++ (page_request token size <$> seq j (pages - j)).
Proof.
  revert j s. induction fuel as [|fuel IH]; intros j s Hvalid Hj Hfuel; [lia|].
  pose proof size_pos as Hsize.
  simpl. unfold bind at 1. rewrite (page_request_run s _ _ Hvalid).
  unfold_monad. simpl.
  rewrite <- fmap_app, !Nat2Z.id, take_take_drop.
  match goal with |- context [if ?test then _ else _] => set (stop := test) end.
  assert (stop = true <-> target <= (j + 1) * size) as Hstop.
  { unfold stop, target, wanted. rewrite length_fmap, length_take.
    destruct limit as [l|]; simpl.
    - specialize (Hlimit l eq_refl). destruct (Z.eqb_spec l 0); [lia|]. simpl.
      destruct (Z.ltb_spec (Z.of_nat (j * size) + Z.of_nat size)
                  (Z.of_nat (length collection))); simpl.
      + rewrite Z.leb_le. lia.
      + split; [intros _|reflexivity]. lia.
    - rewrite orb_false_r.
      destruct (Z.ltb_spec (Z.of_nat (j * size) + Z.of_nat size)
                  (Z.of_nat (length collection))); simpl.
      + split; [discriminate|]. lia.
      + split; [intros _|reflexivity]. lia. }
  pose proof (ceil_div_le target size (j + 1) Hsize) as Hceil.
  destruct stop.
  - assert (pages = j + 1) as Hlast.
    { destruct Hstop as [Hstop _]. specialize (Hstop eq_refl).
      apply Hceil in Hstop. unfold pages in *. lia. }
    eexists. split.
    + replace (pages * size) with (j * size + size) by lia. reflexivity.
    + simpl. replace (pages - j) with 1 by lia. reflexivity.
  - assert (j + 1 < pages) as Hmore.
    { assert (~ target <= (j + 1) * size) as Hnot
        by (intros H; apply Hstop in H; discriminate).
      rewrite <- Hceil in Hnot. unfold pages in *. lia. }
    destruct (IH (j + 1)
                (set_api_calls (api_calls s ++ [page_request token size j])
                   (set_clock_reads (S (clock_reads s)) s)))
      as (s' & Hrun & Hcalls); [exact Hvalid|exact Hmore|lia|].
    exists s'. simpl in Hrun, Hcalls. split.
    + replace (Z.of_nat (j * size) + Z.of_nat size)%Z
        with (Z.of_nat ((j + 1) * size)) by lia.
      replace (j * size + size) with ((j + 1) * size) by lia.
      exact Hrun.
    + rewrite Hcalls, <- app_assoc.
      replace (pages - j) with (S (pages - (j + 1))) by lia.
      simpl. replace (S j) with (j + 1) by lia. reflexivity.
Qed.

Lemma fetch_run (fuel : nat) (s : State) :
  token_stays_valid E s token ->
  pages <= fuel ->
  exists s',
    fetch_playlists E fuel limit s
    = (Return (_parse_playlist_summary (_user_profile s) <$> take target collection), s') /\
    api_calls s' = api_calls s ++ (page_request token size <$> seq 0 pages).
Proof.
  intros Hvalid Hfuel.
  pose proof size_pos as Hsize.
  assert (0 < pages) as Hpages by (unfold pages; lia).
  destruct (loop_run fuel 0 s Hvalid Hpages) as (s' & Hrun & Hcalls); [lia|].
  simpl in Hrun. change (Z.of_nat 0) with 0%Z in Hrun. rewrite Nat.sub_0_r in Hcalls.
  pose proof (ceil_div_le target size pages Hsize) as Hceil.
  assert (target <= pages * size) as Hcover by (apply Hceil; unfold pages; lia).
  exists s'. split; [|exact Hcalls].
  unfold fetch_playlists. unfold_monad.
  assert ((if truthy_num limit then Z.min 50 (default 0%Z limit) else 50%Z)
          = Z.of_nat size) as ->.
  { unfold size, page_size. destruct limit as [l|]; simpl; [|reflexivity].
    specialize (Hlimit l eq_refl). destruct (Z.eqb_spec l 0); simpl; lia. }
  rewrite Hrun. unfold target, wanted in *.
  destruct limit as [l|]; simpl.
  - specialize (Hlimit l eq_refl). destruct (Z.eqb_spec l 0); [lia|]. simpl.
    unfold slice_to. destruct (Z.leb_spec 0 l); [|lia].
    rewrite <- fmap_take, take_take. do 3 f_equal.
    apply take_same_min. lia.
  - do 3 f_equal. apply take_same_min. lia.
Qed.
End Paging.

Lemma ceil_div_pos (a b : nat) : 0 < b -> a <> 0 -> 1 <= ceil_div a b.
Proof.
  intros Hb Ha. pose proof (ceil_div_le a b 0 Hb) as H.
  destruct (ceil_div a b); [|lia]. assert (a <= 0 * b) by (apply H; lia). lia.
Qed.

Lemma ceil_div_mono (a a' b : nat) : 0 < b -> a <= a' -> ceil_div a b <= ceil_div a' b.
Proof.
  intros Hb Ha. apply ceil_div_le; [assumption|].
  assert (a' <= ceil_div a' b * b) by (apply ceil_div_le; [assumption|lia]). lia.
Qed.

(** C4, as the code has it. Against a collection of [n] playlists served in
    pages of the size asked for (50 without a limit, [min 50 l] with a
    limit [l] of at least one), the playlist loop issues
    [max 1 (ceil (m / size))] requests, at offsets 0, [size], [2 * size],
    ..., and returns the first [m] playlists in their order, where [m] is [n]
    without a limit and [min n l] with one. So without a limit all [n]
    items come back, in [ceil (n / 50)] requests if there is an item at
    all; and with a limit at most [l] items come back, in no more than the
    [ceil (l / size)] requests that [l] items take. *)
Theorem pagination_requests (E : Env) (collection : list PlaylistJson.t)
    (token : string) (limit : option Z) (fuel : nat) (s : State) :
  serves_playlists E collection ->
  token_stays_valid E s token ->
  (forall l, limit = Some l -> (1 <= l)%Z) ->
  let n := length collection in
  let size := page_size limit in
  let m := wanted n limit in
  let requests := 1 `max` ceil_div m size in
  requests <= fuel ->
  (exists s',
     fetch_playlists E fuel limit s
     = (Return (_parse_playlist_summary (_user_profile s) <$> take m collection), s') /\
     api_calls s' = api_calls s ++ (page_request token size <$> seq 0 requests)) /\
  (limit = None -> size = 50 /\ m = n /\ (n <> 0 -> requests = ceil_div n 50)) /\
  (forall l, limit = Some l ->
     size = Z.to_nat (Z.min 50 l) /\ m <= Z.to_nat l /\
     requests <= ceil_div (Z.to_nat l) size).
Proof.
  intros Hserves Hvalid Hlimit n size m requests Hfuel.
  split; [|split].
  - apply (fetch_run E collection token Hserves limit Hlimit fuel s Hvalid Hfuel).
  - intros ->. unfold requests, m, size, page_size, wanted. repeat split.
    intros Hn. pose proof (ceil_div_pos n 50). lia.
  - intros l ->. specialize (Hlimit l eq_refl).
    unfold requests, m, size, page_size, wanted.
    split; [reflexivity|]. split; [lia|].
    assert (0 < Z.to_nat (50 `min` l)) as Hsize by lia.
    pose proof (ceil_div_pos (Z.to_nat l) _ Hsize).
    pose proof (ceil_div_mono (n `min` Z.to_nat l) (Z.to_nat l) _ Hsize). lia.
Qed.

(** The worlds of the concrete runs serve their collection page by page,
    and the token of the signed-in service stays valid in them. *)
Lemma library_serves (collection : list PlaylistJson.t) :
  serves_playlists (Demo.library collection) collection.
Proof. intros seen method bearer limit offset. reflexivity. Qed.

Lemma signed_in_valid (collection : list PlaylistJson.t) :
  token_stays_valid (Demo.library collection) Demo.signed_in "T1".
Proof.
  split; [reflexivity|]. split; [discriminate|].
  exists 5000%Z. split; [reflexivity|]. split; [discriminate|].
  intros k. simpl. lia.
Qed.

(** An empty collection costs one request, not [ceil (0 / 50) = 0]. *)
Lemma empty_collection_one_request :
  ~ (forall (E : Env) (collection : list PlaylistJson.t) (token : string)
            (fuel : nat) (s : State),
       serves_playlists E collection ->
       token_stays_valid E s token ->
       fst (fetch_playlists E fuel None s) <> Diverge ->
       length (api_calls (snd (fetch_playlists E fuel None s)))
       = length (api_calls s) + ceil_div (length collection) 50).
Proof.
  intros H.
  specialize (H (Demo.library []) [] "T1" 5 Demo.signed_in
                (library_serves []) (signed_in_valid [])).
  assert (fst (fetch_playlists (Demo.library []) 5 None Demo.signed_in) <> Diverge)
    as Hends by (vm_compute; discriminate).
  specialize (H Hends). vm_compute in H. discriminate H.
Qed.

Lemma pagination_requests_witness :
  let E := Demo.library (Demo.many 120) in
  serves_playlists E (Demo.many 120) /\
  token_stays_valid E Demo.signed_in "T1" /\
  (1 `max` ceil_div 120 50 <= 5) /\
  (exists s',
     fetch_playlists E 5 None Demo.signed_in
     = (Return (_parse_playlist_summary None <$> take 120 (Demo.many 120)), s') /\
     api_calls s' = page_request "T1" 50 <$> [0; 1; 2]).
Proof.
  intros E.
  split; [apply library_serves|]. split; [apply signed_in_valid|].
  split; [vm_compute; lia|].
  destruct (pagination_requests E (Demo.many 120) "T1" None 5 Demo.signed_in
              (library_serves _) (signed_in_valid _)) as [Hrun _].
  - discriminate.
  - vm_compute. lia.
  - exact Hrun.
Defined.

(** * Beyond the claims *)

(** ** The token store, operation after operation *)

(** X1. Saving tokens and reading them back: a token manager created after
    [save_tokens] finds in the file the two tokens saved and the expiry
    [now + expires_in], and so does a new service; one created after
    [clear_tokens] finds the file gone and holds no token. *)
Theorem tokens_round_trip (E : Env) (access_token refresh_token : option string)
    (expires_in : Z) (cfg : SpotifyConfig.t) (s : State) :
  let saved := snd (save_tokens E access_token refresh_token expires_in s) in
  let cleared := snd (clear_tokens saved) in
  let stored :=
    TokenManager.mk access_token refresh_token
      (Some (clock E (clock_reads s) + expires_in)%Z) in
  stored_tokens (snd (TokenManager_init saved)) = (stored, Some stored) /\
  stored_tokens (snd (TokenManager_init cleared)) = (TokenManager.mk None None None, None) /\
  (forall file,
     token_manager (SpotifyService_init cfg file)
     = token_manager (snd (TokenManager_init (SpotifyService_init cfg file)))) /\
  token_manager (SpotifyService_init cfg (token_file saved)) = stored.
Proof.
  intros saved cleared stored. split; [reflexivity|]. split; [reflexivity|].
  split; [|reflexivity]. intros [file|]; reflexivity.
Qed.

(** X2. A token just saved is valid at the next reading [later] of the clock
    exactly when [later < now + expires_in - 300]: a grant of 300 seconds
    or less is never valid under a clock that does not run backwards, and a
    longer one is valid while the clock stands. *)
Theorem saved_token_validity (E : Env) (token : string) (refresh_token : option string)
    (expires_in : Z) (s : State) :
  let now := clock E (clock_reads s) in
  let later := clock E (S (clock_reads s)) in
  let saved := snd (save_tokens E (Some token) refresh_token expires_in s) in
  token <> "" ->
  (now + expires_in)%Z <> 0%Z ->
  fst (is_token_valid E saved) = Return (later <? now + expires_in - 300)%Z /\
  ((now <= later)%Z -> (expires_in <= 300)%Z -> fst (is_token_valid E saved) = Return false) /\
  (later = now -> (300 < expires_in)%Z -> fst (is_token_valid E saved) = Return true).
Proof.
  intros now later saved Htoken Hexp.
  assert (fst (is_token_valid E saved) = Return (later <? now + expires_in - 300)%Z) as Hrun.
  { unfold saved, save_tokens, is_token_valid, time_time. unfold_monad. simpl.
    destruct (String.eqb_spec token ""); [contradiction|]. simpl.
    fold now. destruct (Z.eqb_spec (now + expires_in) 0); [contradiction|]. reflexivity. }
  split; [exact Hrun|]. rewrite Hrun. split.
  - intros Hmono Hshort. f_equal. apply Z.ltb_ge. lia.
  - intros Hsame Hlong. f_equal. apply Z.ltb_lt. lia.
Qed.

Lemma saved_token_validity_witness :
  "T" <> "" /\ (1000 + 3600)%Z <> 0%Z /\
  fst (is_token_valid Demo.offline
         (snd (save_tokens Demo.offline (Some "T") None 3600 Demo.fresh)))
  = Return true.
Proof.
  split; [discriminate|]. split; [discriminate|].
  destruct (saved_token_validity Demo.offline "T" None 3600 Demo.fresh) as (_ & _ & H).
  - discriminate.
  - simpl. discriminate.
  - apply H; [reflexivity|lia].
Defined.

(** X4. Without a valid token no request leaves the machine:
    [_make_request] raises [AuthenticationError], the Web API is
    not called, no refresh is attempted and the store is left as it is. *)
Theorem request_needs_valid_token (E : Env) (method endpoint : string)
    (params : list (string * param)) (s : State) :
  fst (is_token_valid E s) = Return false ->
  fst (_make_request E method endpoint params s)
  = Raise (Exn AuthenticationError "No valid access token") /\
  api_calls (snd (_make_request E method endpoint params s)) = api_calls s /\
  token_posts (snd (_make_request E method endpoint params s)) = token_posts s /\
  token_manager (snd (_make_request E method endpoint params s)) = token_manager s.
Proof.
  intros Hinvalid. unfold _make_request, get_access_token. unfold_monad.
  pose proof (is_token_valid_preserves E api_calls (fun _ _ => eq_refl) s) as Hcalls.
  pose proof (is_token_valid_preserves E token_posts (fun _ _ => eq_refl) s) as Hposts.
  pose proof (is_token_valid_preserves E token_manager (fun _ _ => eq_refl) s) as Hstore.
  destruct (is_token_valid E s) as [r s1]. simpl in *. subst r. simpl. auto.
Qed.

Lemma request_needs_valid_token_witness :
  fst (is_token_valid Demo.offline Demo.fresh) = Return false /\
  fst (_make_request Demo.offline "GET" "/me" [] Demo.fresh)
  = Raise (Exn AuthenticationError "No valid access token").
Proof.
  split; [reflexivity|].
  apply (request_needs_valid_token Demo.offline "GET" "/me" [] Demo.fresh). reflexivity.
Defined.

(** X3. [get_access_token] returns, changes at most the clock (which it
    reads once at most), and hands out a token only if it is the stored
    one, non-empty, with more than 300 seconds left. *)
Theorem get_access_token_reads_only (E : Env) (s : State) :
  (snd (get_access_token E s) = s \/
   snd (get_access_token E s) = set_clock_reads (S (clock_reads s)) s) /\
  exists o, fst (get_access_token E s) = Return o /\
    forall token, o = Some token ->
      TokenManager.access_token (token_manager s) = Some token /\ token <> "" /\
      exists expires_at,
        TokenManager.expires_at (token_manager s) = Some expires_at /\
        (clock E (clock_reads s) < expires_at - 300)%Z.
Proof.
  unfold get_access_token, is_token_valid, time_time. unfold_monad.
  destruct (truthy_str (TokenManager.access_token (token_manager s))) eqn:Ha; simpl.
  2:{ split; [left; reflexivity|]. eexists. split; [reflexivity|]. discriminate. }
  destruct (truthy_num (TokenManager.expires_at (token_manager s))) eqn:He; simpl.
  2:{ split; [left; reflexivity|]. eexists. split; [reflexivity|]. discriminate. }
  apply truthy_str_spec in Ha as (token & Ha & Hne).
  apply truthy_num_spec in He as (e & He & Hz). rewrite He. simpl.
  destruct (Z.ltb_spec (clock E (clock_reads s)) (e - 300)); simpl.
  - split; [right; reflexivity|]. eexists. split; [reflexivity|].
    intros t Ht. rewrite Ha in Ht. injection Ht as <-. eauto 10.
  - split; [right; reflexivity|]. eexists. split; [reflexivity|]. discriminate.
Qed.


(** ** The listener's life cycle *)

(** X5. [stop_server] returns whether or not a listener was started, leaves
    no listener serving, keeps what the listener recorded, and stopping a
    second time changes nothing. *)
Theorem stop_server_idempotent (s : State) :
  fst (stop_server s) = Return tt /\
  listening (snd (stop_server s)) = false /\
  stop_server (snd (stop_server s)) = (Return tt, snd (stop_server s)) /\
  (SpotifyOAuthServer.server (oauth_server s) = None -> snd (stop_server s) = s) /\
  (forall srv, SpotifyOAuthServer.server (oauth_server s) = Some srv ->
     exists srv', SpotifyOAuthServer.server (oauth_server (snd (stop_server s))) = Some srv' /\
                  recorded srv' = recorded srv /\
                  HTTPServer.callback_received srv' = HTTPServer.callback_received srv).
Proof.
  unfold stop_server, listening. unfold_monad.
  destruct (SpotifyOAuthServer.server (oauth_server s)) as [srv|] eqn:Hs; simpl.
  - repeat split; try discriminate.
    intros srv0 [= <-]. eexists. repeat split.
  - rewrite Hs. repeat split. discriminate.
Qed.

Lemma stop_server_listening (s : State) : listening (snd (stop_server s)) = false.
Proof.
  unfold stop_server, listening. unfold_monad.
  destruct (SpotifyOAuthServer.server (oauth_server s)) as [srv|] eqn:Hs; simpl.
  - reflexivity.
  - rewrite Hs. reflexivity.
Qed.

Section Release.
Context (E : Env).

Lemma is_token_valid_listener : preserves oauth_server (is_token_valid E).
Proof. apply is_token_valid_preserves. reflexivity. Qed.

Lemma has_refresh_token_listener : preserves oauth_server has_refresh_token.
Proof. unfold has_refresh_token. frame. Qed.

Lemma refresh_access_token_listener (refresh_token : option string) :
  preserves oauth_server (refresh_access_token E refresh_token).
Proof.
  pose proof (post_token_listener E).
  unfold refresh_access_token, response_json. frame.
Qed.

Lemma _refresh_token_listener : preserves oauth_server (_refresh_token E).
Proof.
  pose proof refresh_access_token_listener. pose proof (save_tokens_listener E).
  unfold _refresh_token. frame.
Qed.

End Release.

(** X6. The listener never outlives the flow: when [_new_authentication]
    returns, with [True] or with [False], no listener is serving; and
    [authenticate], started without a serving listener, ends without one. *)
Theorem flow_releases_listener (E : Env) (fuel : nat) (s : State) :
  (forall b s', _new_authentication E fuel s = (Return b, s') -> listening s' = false) /\
  (listening s = false ->
   forall b s', SpotifyAuthenticator_authenticate E fuel s = (Return b, s') ->
                listening s' = false).
Proof.
  assert (forall s0 b s', _new_authentication E fuel s0 = (Return b, s') ->
                          listening s' = false) as Hflow.
  { intros s0 b s'. unfold _new_authentication. rewrite guarded_run.
    match goal with
    | |- context [match ?run with _ => _ end] => destruct run as [[b0|e|] s1]
    end.
    - intros [= _ <-]. apply stop_server_listening.
    - intros [= _ <-]. apply stop_server_listening.
    - discriminate. }
  split; [apply Hflow|].
  intros Hquiet b s'. unfold SpotifyAuthenticator_authenticate, try_except.
  match goal with |- context [match ?body s with _ => _ end] => set (run := body) end.
  destruct (run s) as [r s1] eqn:Hrun. unfold run in Hrun. clear run.
  assert (oauth_server s1 = oauth_server s \/
          exists s0, _new_authentication E fuel s0 = (r, s1)) as Hcases.
  { apply bind_inv in Hrun as [(valid & s2 & H1 & Hrun) | [(e & H1 & _) | (H1 & _)]].
    2,3: left; exact (preserves_run oauth_server _ _ _ _ (is_token_valid_listener E) H1).
    pose proof (preserves_run oauth_server _ _ _ _ (is_token_valid_listener E) H1) as Hs2.
    destruct valid.
    { left. injection Hrun as _ <-. exact Hs2. }
    apply bind_inv in Hrun as [(has & s3 & H2 & Hrun) | [(e & H2 & _) | (H2 & _)]];
      [|discriminate..].
    injection H2 as _ <-.
    assert (forall r3 s3, (if has then _refresh_token E else ret false) s2 = (r3, s3) ->
                          oauth_server s3 = oauth_server s2) as Hrefresh.
    { intros r3 s3 H3. destruct has.
      - exact (preserves_run oauth_server _ _ _ _ (_refresh_token_listener E) H3).
      - injection H3 as _ <-. reflexivity. }
    apply bind_inv in Hrun as [(refreshed & s3 & H3 & Hrun) | [(e & H3 & _) | (H3 & _)]].
    - destruct refreshed.
      + left. injection Hrun as _ <-. rewrite (Hrefresh _ _ H3). exact Hs2.
      + right. exists s3. exact Hrun.
    - left. rewrite (Hrefresh _ _ H3). exact Hs2.
    - left. rewrite (Hrefresh _ _ H3). exact Hs2. }
  destruct Hcases as [Hsame | (s0 & Hnew)].
  - destruct r as [b0|e|]; simpl; intros [= <- <-];
      unfold listening in *; rewrite Hsame; exact Hquiet.
  - destruct r as [b0|e|]; simpl; intros [= <- <-].
    + eapply Hflow. exact Hnew.
    + exfalso. apply (new_authentication_never_raises E fuel s0 e).
      rewrite Hnew. reflexivity.
Qed.

Lemma flow_releases_listener_witness :
  exists s',
    _new_authentication Demo.denied 5 Demo.fresh = (Return false, s') /\
    listening s' = false.
Proof.
  eexists. split; [vm_compute; reflexivity|].
  destruct (flow_releases_listener Demo.denied 5 Demo.fresh) as [H _].
  apply (H false). vm_compute. reflexivity.
Defined.

(** X8. With a valid token [authenticate] returns [True] at once: the clock is
    read once and nothing else happens, no port is bound, no browser is
    opened and no form is posted. *)
Theorem valid_token_short_circuit (E : Env) (fuel : nat) (s : State) :
  fst (is_token_valid E s) = Return true ->
  SpotifyAuthenticator_authenticate E fuel s
  = (Return true, set_clock_reads (S (clock_reads s)) s).
Proof.
  unfold SpotifyAuthenticator_authenticate, try_except, is_token_valid, time_time.
  unfold_monad.
  destruct (negb _ || negb _); simpl; [discriminate|].
  destruct (TokenManager.expires_at (token_manager s)) as [e|]; simpl; [|discriminate].
  intros [= ->]. reflexivity.
Qed.

Lemma valid_token_short_circuit_witness :
  fst (is_token_valid Demo.offline Demo.with_token) = Return true /\
  SpotifyAuthenticator_authenticate Demo.offline 0 Demo.with_token
  = (Return true, set_clock_reads 1 Demo.with_token).
Proof.
  split; [reflexivity|].
  apply (valid_token_short_circuit Demo.offline 0 Demo.with_token). reflexivity.
Defined.

Lemma authenticator_catches_all (E : Env) (fuel : nat) (s : State) (e : exn) :
  fst (SpotifyAuthenticator_authenticate E fuel s) <> Raise e.
Proof.
  unfold SpotifyAuthenticator_authenticate, try_except.
  match goal with
  | |- context [match ?run with _ => _ end] => destruct run as [[b|e'|] s1]
  end; discriminate.
Qed.

(** X9. Neither [SpotifyAuthenticator.authenticate] nor
    [SpotifyService.authenticate] raises: every failure inside reaches the
    caller as a returned value. *)
Theorem authenticate_never_raises (E : Env) (fuel : nat) (s : State) (e : exn) :
  fst (SpotifyAuthenticator_authenticate E fuel s) <> Raise e /\
  fst (SpotifyService_authenticate E fuel s) <> Raise e.
Proof.
  pose proof (authenticator_catches_all E fuel) as Hauth.
  split; [apply Hauth|].
  unfold SpotifyService_authenticate, is_configured. unfold_monad. simpl.
  destruct (truthy_str _ && truthy_str _); simpl; [|discriminate].
  specialize (Hauth s).
  destruct (SpotifyAuthenticator_authenticate E fuel s) as [[success|e'|] s1]; simpl in *;
    [|congruence|discriminate].
  destruct success; simpl; [|discriminate].
  unfold try_except.
  destruct (get_user_profile E (set_authenticated true s1)) as [[p|e'|] s2]; discriminate.
Qed.

(** ** Waiting in vain *)

Lemma sleep_silent (E : Env) (s : State) :
  redirects E (sleeps s) = [] ->
  exists s',
    sleep E s = (Return tt, s') /\ sleeps s' = S (sleeps s) /\
    clock_reads s' = clock_reads s /\ oauth_server s' = oauth_server s.
Proof.
  intros Hq. unfold sleep. unfold_monad. simpl.
  destruct (oauth_server s) as [[srv|] expected] eqn:Ho; simpl.
  - destruct (HTTPServer.serving srv); eexists; (split; [reflexivity|]); simpl.
    + rewrite Hq. simpl. auto.
    + auto.
  - eexists. split; [reflexivity|]. simpl. auto.
Qed.

Lemma wait_loop_times_out (E : Env) (n fuel : nat) (start_time timeout : Z) (s : State)
    (srv : HTTPServer.t) :
  SpotifyOAuthServer.server (oauth_server s) = Some srv ->
  HTTPServer.callback_received srv = false ->
  (forall i, i < n -> redirects E (sleeps s + i) = []) ->
  (forall i, i < n -> (clock E (clock_reads s + i) - start_time <= timeout)%Z) ->
  (clock E (clock_reads s + n) - start_time > timeout)%Z ->
  n < fuel ->
  exists s',
    wait_loop E fuel start_time timeout s = (Raise CallbackTimeout, s') /\
    sleeps s' = sleeps s + n /\ clock_reads s' = clock_reads s + n + 1 /\
    oauth_server s' = oauth_server s.
Proof.
  revert fuel s. induction n as [|n IH]; intros fuel s Hsrv Hrec Hquiet Hearly Hlate Hfuel;
    (destruct fuel as [|fuel]; [lia|]); simpl; unfold server_attr, time_time; unfold_monad;
    rewrite Hsrv, Hrec.
  - rewrite Nat.add_0_r in Hlate.
    destruct (Z.gtb_spec (clock E (clock_reads s) - start_time) timeout); [|lia].
    eexists. split; [reflexivity|]. simpl. repeat split; lia.
  - pose proof (Hearly 0 ltac:(lia)) as H0. rewrite Nat.add_0_r in H0.
    destruct (Z.gtb_spec (clock E (clock_reads s) - start_time) timeout); [lia|].
    pose proof (Hquiet 0 ltac:(lia)) as Hq0. rewrite Nat.add_0_r in Hq0.
    destruct (sleep_silent E (set_clock_reads (S (clock_reads s)) s) Hq0)
      as (s1 & Hsleep & Hsl1 & Hcl1 & Ho1).
    rewrite Hsleep. simpl in Hsl1, Hcl1, Ho1.
    destruct (IH fuel s1) as (s' & Hrun & Hsl & Hcl & Ho).
    + rewrite Ho1. exact Hsrv.
    + exact Hrec.
    + intros i Hi. rewrite Hsl1. replace (S (sleeps s) + i) with (sleeps s + S i) by lia.
      apply Hquiet. lia.
    + intros i Hi. rewrite Hcl1.
      replace (S (clock_reads s) + i) with (clock_reads s + S i) by lia.
      apply Hearly. lia.
    + rewrite Hcl1. replace (S (clock_reads s) + n) with (clock_reads s + S n) by lia.
      exact Hlate.
    + lia.
    + exists s'. split; [exact Hrun|]. rewrite Hsl, Hcl, Ho, Hsl1, Hcl1, Ho1.
      repeat split; lia.
Qed.

(** X10. When no request reaches the listener, [wait_for_callback] polls
    while the clock is within [timeout] of the start and raises
    [TimeoutError] at the first reading beyond it, after one sleep per
    reading within. *)
Theorem silent_wait_times_out (E : Env) (n fuel : nat) (timeout : Z) (s : State)
    (srv : HTTPServer.t) :
  SpotifyOAuthServer.server (oauth_server s) = Some srv ->
  HTTPServer.callback_received srv = false ->
  (forall i, i < n -> redirects E (sleeps s + i) = []) ->
  (forall i, i < n ->
     (clock E (clock_reads s + 1 + i) - clock E (clock_reads s) <= timeout)%Z) ->
  (clock E (clock_reads s + 1 + n) - clock E (clock_reads s) > timeout)%Z ->
  n < fuel ->
  fst (wait_for_callback E fuel timeout s) = Raise CallbackTimeout /\
  sleeps (snd (wait_for_callback E fuel timeout s)) = sleeps s + n.
Proof.
  intros Hsrv Hrec Hquiet Hearly Hlate Hfuel.
  unfold wait_for_callback, time_time. unfold_monad. rewrite Hsrv.
  destruct (wait_loop_times_out E n fuel (clock E (clock_reads s)) timeout
              (set_clock_reads (S (clock_reads s)) s) srv)
    as (s' & Hrun & Hsl & _); simpl; try assumption.
  - intros i Hi. replace (S (clock_reads s + i)) with (clock_reads s + 1 + i) by lia.
    apply Hearly. exact Hi.
  - replace (S (clock_reads s + n)) with (clock_reads s + 1 + n) by lia. exact Hlate.
  - rewrite Hrun. simpl. split; [reflexivity|exact Hsl].
Qed.

Lemma silent_wait_times_out_witness :
  fst (wait_for_callback Demo.unanswered 5 300 (Demo.awaiting Demo.unanswered))
  = Raise CallbackTimeout /\
  sleeps (snd (wait_for_callback Demo.unanswered 5 300 (Demo.awaiting Demo.unanswered))) = 1.
Proof.
  apply (silent_wait_times_out Demo.unanswered 1 5 300 (Demo.awaiting Demo.unanswered)
           Demo.listening).
  - reflexivity.
  - reflexivity.
  - intros i Hi. reflexivity.
  - intros i Hi. assert (i = 0) as -> by lia. vm_compute. discriminate.
  - vm_compute. reflexivity.
  - lia.
Defined.

Lemma sleep_serving (E : Env) (s : State) (srv : HTTPServer.t) :
  SpotifyOAuthServer.server (oauth_server s) = Some srv ->
  HTTPServer.serving srv = true ->
  sleep E s
  = (Return tt,
     set_oauth_server
       (SpotifyOAuthServer.mk (Some (serve (redirects E (sleeps s)) srv))
          (SpotifyOAuthServer.expected_state (oauth_server s)))
       (set_sleeps (S (sleeps s)) s)).
Proof.
  intros Hsrv Hserving. unfold sleep. unfold_monad.
  change (oauth_server (set_sleeps (S (sleeps s)) s)) with (oauth_server s).
  rewrite Hsrv, Hserving. reflexivity.
Qed.

(** The wait, when the first redirects arrive during the first sleep. *)
Lemma wait_first_sleep (E : Env) (fuel : nat) (start_time : Z) (s : State)
    (srv : HTTPServer.t) :
  SpotifyOAuthServer.server (oauth_server s) = Some srv ->
  HTTPServer.callback_received srv = false ->
  HTTPServer.serving srv = true ->
  redirects E (sleeps s) <> [] ->
  (clock E (clock_reads s) - start_time <= 300)%Z ->
  1 <= fuel ->
  wait_loop E fuel start_time 300 s
  = (Return tt,
     set_oauth_server
       (SpotifyOAuthServer.mk (Some (serve (redirects E (sleeps s)) srv))
          (SpotifyOAuthServer.expected_state (oauth_server s)))
       (set_sleeps (S (sleeps s)) (set_clock_reads (S (clock_reads s)) s))).
Proof.
  intros Hsrv Hrec Hserving Hsome Hclock Hfuel.
  destruct fuel as [|fuel]; [lia|]. simpl.
  unfold server_attr, time_time. unfold_monad. cbv beta.
  rewrite Hsrv, Hrec. cbv beta iota.
  destruct (Z.gtb_spec (clock E (clock_reads s) - start_time) 300); [lia|].
  cbv beta iota.
  rewrite (sleep_serving E (set_clock_reads (S (clock_reads s)) s) srv Hsrv Hserving).
  assert (HTTPServer.callback_received (serve (redirects E (sleeps s)) srv) = true) as Hnow
    by (apply serve_received; left; exact Hsome).
  destruct fuel; simpl; unfold server_attr; unfold_monad; simpl; rewrite Hnow; reflexivity.
Qed.

Lemma exchange_run (E : Env) (s : State) (code text : string) (j : TokenJson) :
  token_endpoint E (token_posts s)
    [("grant_type", Some "authorization_code"); ("code", Some code);
     ("redirect_uri", Some (SpotifyConfig.redirect_uri (config s)));
     ("client_id", SpotifyConfig.client_id (config s));
     ("client_secret", SpotifyConfig.client_secret (config s))]
  = Some (TokenResponse 200 text (Some j)) ->
  exchange_code_for_tokens E (Some code) s
  = (Return j,
     set_token_posts
       (token_posts s ++
        [[("grant_type", Some "authorization_code"); ("code", Some code);
          ("redirect_uri", Some (SpotifyConfig.redirect_uri (config s)));
          ("client_id", SpotifyConfig.client_id (config s));
          ("client_secret", SpotifyConfig.client_secret (config s))]]) s).
Proof.
  intros Hendpoint.
  unfold exchange_code_for_tokens, post_token, response_json. unfold_monad.
  cbv zeta. rewrite Hendpoint. reflexivity.
Qed.

(** X11. The flow that succeeds: the port is free, the browser comes back
    during the first sleep with a non-empty code and the state that was
    generated, and the token endpoint answers 200 with the three keys. Then
    [_new_authentication] returns [True], exactly one form is posted (the
    exchange of that code), the answer is stored in memory and on file with
    the expiry counted from the time of saving, and the listener is
    stopped. *)
Theorem successful_flow (E : Env) (fuel : nat) (s : State) (q : query)
    (code text : string) (others others' : list string)
    (access_token refresh_token : option string) (expires_in : Z) :
  let form :=
    [("grant_type", Some "authorization_code"); ("code", Some code);
     ("redirect_uri", Some (SpotifyConfig.redirect_uri (config s)));
     ("client_id", SpotifyConfig.client_id (config s));
     ("client_secret", SpotifyConfig.client_secret (config s))] in
  let stored :=
    TokenManager.mk access_token refresh_token
      (Some (clock E (clock_reads s + 2) + expires_in)%Z) in
  port_free E (binds s) = true ->
  redirects E (sleeps s) = [q] ->
  q !! "code" = Some (code, others) ->
  code <> "" ->
  q !! "state" = Some (urandom E (draws s), others') ->
  (clock E (S (clock_reads s)) - clock E (clock_reads s) <= 300)%Z ->
  1 <= fuel ->
  token_endpoint E (token_posts s) form
  = Some (TokenResponse 200 text
            (Some (mkTokenJson (Some access_token) (Some refresh_token) (Some expires_in)))) ->
  fst (_new_authentication E fuel s) = Return true /\
  token_manager (snd (_new_authentication E fuel s)) = stored /\
  token_file (snd (_new_authentication E fuel s)) = Some stored /\
  token_posts (snd (_new_authentication E fuel s)) = token_posts s ++ [form] /\
  listening (snd (_new_authentication E fuel s)) = false.
Proof.
  intros form stored Hport Hred Hcode Hne Hstate Hclock Hfuel Hendpoint.
  assert (exists s',
            _new_authentication E fuel s = (Return true, s') /\
            token_manager s' = stored /\ token_file s' = Some stored /\
            token_posts s' = token_posts s ++ [form] /\ listening s' = false)
    as (s' & Hrun & Hrest); [|rewrite Hrun; split; [reflexivity|exact Hrest]].
  unfold _new_authentication. rewrite guarded_run.
  unfold start_server, get_authorization_url, get_scope_string, webbrowser_open,
    wait_for_callback, time_time.
  unfold_monad. simpl. rewrite Hport. simpl.
  erewrite (wait_first_sleep E fuel _ _ (HTTPServer.mk None None None false true));
    [|reflexivity|reflexivity|reflexivity|simpl; rewrite Hred; discriminate|exact Hclock
     |exact Hfuel].
  simpl. rewrite Hred. simpl. unfold server_attr. unfold_monad. simpl.
  unfold do_GET. rewrite Hcode, Hstate. simpl.
  rewrite bool_decide_eq_true_2 by reflexivity. simpl.
  destruct (String.eqb_spec code ""); [contradiction|]. simpl.
  erewrite exchange_run by (simpl; exact Hendpoint).
  cbv beta iota delta [tj_access_token tj_refresh_token tj_expires_in].
  eexists. split; [reflexivity|].
  unfold stored. replace (clock_reads s + 2) with (S (S (clock_reads s))) by lia.
  repeat split.
Qed.

Lemma successful_flow_witness :
  fst (_new_authentication Demo.refusing 1 Demo.fresh) = Return true /\
  token_manager (snd (_new_authentication Demo.refusing 1 Demo.fresh))
  = TokenManager.mk (Some "T3") (Some "R3") (Some 4600%Z).
Proof.
  destruct (successful_flow Demo.refusing 1 Demo.fresh (Demo.success "code" "S0")
              "code" "" [] [] (Some "T3") (Some "R3") 3600) as (H1 & H2 & _).
  - reflexivity.
  - reflexivity.
  - vm_compute. reflexivity.
  - discriminate.
  - vm_compute. reflexivity.
  - vm_compute. discriminate.
  - lia.
  - vm_compute. reflexivity.
  - split; [exact H1|exact H2].
Defined.

(** X12. Any request ends the wait: when the first request to reach the
    listener carries neither [code] nor [error], the flow fails on the
    state comparison and returns [False], without posting a form and
    without touching the stored tokens. *)
Theorem stray_request_aborts (E : Env) (fuel : nat) (s : State) (q : query) :
  port_free E (binds s) = true ->
  redirects E (sleeps s) = [q] ->
  q !! "code" = None ->
  q !! "error" = None ->
  (clock E (S (clock_reads s)) - clock E (clock_reads s) <= 300)%Z ->
  1 <= fuel ->
  fst (_new_authentication E fuel s) = Return false /\
  token_posts (snd (_new_authentication E fuel s)) = token_posts s /\
  stored_tokens (snd (_new_authentication E fuel s)) = stored_tokens s /\
  listening (snd (_new_authentication E fuel s)) = false.
Proof.
  intros Hport Hred Hcode Herror Hclock Hfuel.
  unfold _new_authentication. rewrite guarded_run.
  unfold start_server, get_authorization_url, get_scope_string, webbrowser_open,
    wait_for_callback, time_time.
  unfold_monad. simpl. rewrite Hport. simpl.
  erewrite (wait_first_sleep E fuel _ _ (HTTPServer.mk None None None false true));
    [|reflexivity|reflexivity|reflexivity|simpl; rewrite Hred; discriminate|exact Hclock
     |exact Hfuel].
  simpl. rewrite Hred. simpl. unfold server_attr. unfold_monad. simpl.
  unfold do_GET. rewrite Hcode, Herror. simpl.
  repeat split.
Qed.

Lemma stray_request_aborts_witness :
  fst (_new_authentication Demo.stray 1 Demo.fresh) = Return false /\
  token_posts (snd (_new_authentication Demo.stray 1 Demo.fresh)) = [].
Proof.
  destruct (stray_request_aborts Demo.stray 1 Demo.fresh ∅) as (H1 & H2 & _).
  - reflexivity.
  - reflexivity.
  - reflexivity.
  - reflexivity.
  - vm_compute. discriminate.
  - lia.
  - split; [exact H1|exact H2].
Defined.


(** ** Requests with a valid token *)

(** The worlds of the concrete runs. *)
Lemma signed_in_anywhere (redirects : nat -> list query)
    (token_endpoint : list token_request -> token_request -> option token_response)
    (api : list api_request -> api_request -> option api_response) :
  token_stays_valid (Demo.world redirects token_endpoint api) Demo.signed_in "T1".
Proof.
  split; [reflexivity|]. split; [discriminate|].
  exists 5000%Z. split; [reflexivity|]. split; [discriminate|].
  intros k. simpl. lia.
Qed.

Lemma jukebox_serves (collection : list ItemJson.t) :
  serves_tracks (Demo.jukebox collection) "p1" collection.
Proof. intros seen method bearer limit offset fields. reflexivity. Qed.


Lemma valid_token_read (E : Env) (s : State) (token : string) :
  token_stays_valid E s token ->
  get_access_token E s = (Return (Some token), set_clock_reads (S (clock_reads s)) s).
Proof.
  intros (Htoken & Hne & e & He & Hnz & Hclock).
  unfold get_access_token, is_token_valid, time_time. unfold_monad.
  rewrite Htoken, He. simpl.
  destruct (String.eqb_spec token ""); [contradiction|]. simpl.
  destruct (Z.eqb_spec e 0); [contradiction|]. simpl.
  specialize (Hclock (clock_reads s)). apply Z.ltb_lt in Hclock. rewrite Hclock.
  simpl. rewrite Htoken. reflexivity.
Qed.

Lemma valid_request_run (E : Env) (s : State) (token method endpoint : string)
    (params : list (string * param)) :
  token_stays_valid E s token ->
  let request := ApiRequest method endpoint params token in
  _make_request E method endpoint params s
  = (match api E (api_calls s) request with
     | None => Raise (Exn ConnectionError "Cannot connect to host")
     | Some response =>
         if (status response =? 429)%Z then
           Raise (Exn RateLimitError
                    ("Rate limited. Retry after "
                     +:+ pretty (default 60%Z (retry_after response)) +:+ " seconds"))
         else if (status response =? 401)%Z then
           Raise (Exn AuthenticationError "Access token expired or invalid")
         else if (status response >=? 400)%Z then
           Raise (Exn MusicServiceError
                    ("API error " +:+ pretty (status response) +:+ ": " +:+ text response))
         else Return (json response)
     end,
     set_api_calls (api_calls s ++ [request]) (set_clock_reads (S (clock_reads s)) s)).
Proof.
  intros Hvalid request. pose proof Hvalid as (_ & Hne & _).
  unfold _make_request. unfold bind at 1. rewrite (valid_token_read E s token Hvalid).
  simpl. destruct (String.eqb_spec token ""); [contradiction|]. simpl.
  unfold_monad. simpl. fold request.
  destruct (api E (api_calls s) request) as [response|]; [|reflexivity].
  destruct (status response =? 429)%Z; [reflexivity|].
  destruct (status response =? 401)%Z; [reflexivity|].
  destruct (status response >=? 400)%Z; reflexivity.
Qed.

Lemma token_stays_valid_after (E : Env) (s s' : State) (token : string) :
  token_manager s' = token_manager s ->
  token_stays_valid E s token -> token_stays_valid E s' token.
Proof. intros Heq. unfold token_stays_valid. rewrite Heq. auto. Qed.

(** X13. A request sent with a valid token is logged once, with that token
    as its bearer. It returns the body exactly when an answer arrives with
    a status below 400; a 429 raises [RateLimitError], a 401
    [AuthenticationError], any other status from 400 on
    [MusicServiceError], and no answer at all a connection error. *)
Theorem request_outcome (E : Env) (s : State) (token method endpoint : string)
    (params : list (string * param)) :
  token_stays_valid E s token ->
  let request := ApiRequest method endpoint params token in
  let run := _make_request E method endpoint params s in
  api_calls (snd run) = api_calls s ++ [request] /\
  (forall body,
     fst run = Return body <->
     exists response,
       api E (api_calls s) request = Some response /\
       (status response < 400)%Z /\ json response = body) /\
  (forall e,
     fst run = Raise e ->
     match api E (api_calls s) request with
     | None => exn_cls e = ConnectionError
     | Some response =>
         (400 <= status response)%Z /\
         exn_cls e = (if (status response =? 429)%Z then RateLimitError
                      else if (status response =? 401)%Z then AuthenticationError
                      else MusicServiceError)
     end).
Proof.
  intros Hvalid request run. unfold run.
  rewrite (valid_request_run E s token method endpoint params Hvalid). fold request.
  simpl. split; [reflexivity|].
  destruct (api E (api_calls s) request) as [response|].
  2:{ split.
      - intros body. split; [discriminate|]. intros (r & Hr & _). discriminate.
      - intros e [= <-]. reflexivity. }
  destruct (Z.eqb_spec (status response) 429) as [H429|H429].
  { split.
    - intros body. split; [discriminate|]. intros (r & [= <-] & Hlt & _). lia.
    - intros e [= <-]. split; [lia|reflexivity]. }
  destruct (Z.eqb_spec (status response) 401) as [H401|H401].
  { split.
    - intros body. split; [discriminate|]. intros (r & [= <-] & Hlt & _). lia.
    - intros e [= <-]. split; [lia|reflexivity]. }
  destruct (Z.geb_spec (status response) 400) as [Hge|Hlt].
  - split.
    + intros body. split; [discriminate|]. intros (r & [= <-] & Hlt & _). lia.
    + intros e [= <-]. split; [lia|reflexivity].
  - split.
    + intros body. split.
      * intros [= <-]. exists response. auto.
      * intros (r & [= <-] & _ & <-). reflexivity.
    + intros e. discriminate.
Qed.

Lemma request_outcome_witness :
  token_stays_valid (Demo.library Demo.three) Demo.signed_in "T1" /\
  api_calls (snd (_make_request (Demo.library Demo.three) "GET" "/playlists/p2" []
                    Demo.signed_in))
  = [ApiRequest "GET" "/playlists/p2" [] "T1"].
Proof.
  split; [apply signed_in_valid|].
  apply (request_outcome (Demo.library Demo.three) Demo.signed_in "T1" "GET"
           "/playlists/p2" []).
  apply signed_in_valid.
Defined.

(** ** The tracks of a playlist *)

Lemma page_tracks_app (E : Env) (a b : list ItemJson.t) :
  page_tracks E (a ++ b) = page_tracks E a ++ page_tracks E b.
Proof. unfold page_tracks. apply omap_app. Qed.

Lemma page_tracks_length (E : Env) (items : list ItemJson.t) :
  length (page_tracks E items) <= length items.
Proof.
  induction items as [|item items IH]; simpl; [lia|].
  destruct (ItemJson.track item) as [track|]; [|lia].
  destruct (truthy_str (TrackJson.id track)); simpl; lia.
Qed.

Lemma page_tracks_ids (E : Env) (items : list ItemJson.t) :
  Forall (fun track => truthy_str (Track.id track) = true /\ Track.track_type track = TRACK)
    (page_tracks E items).
Proof.
  induction items as [|item items IH]; simpl; [constructor|].
  destruct (ItemJson.track item) as [track|]; [|exact IH].
  destruct (truthy_str (TrackJson.id track)) eqn:Hid; [|exact IH].
  constructor; [|exact IH]. simpl. auto.
Qed.

Lemma tracks_loop_ids (E : Env) (fuel : nat) (playlist_id : string) (limit offset : Z)
    (acc tracks : list Track.t) (s s' : State) :
  Forall (fun track => truthy_str (Track.id track) = true /\ Track.track_type track = TRACK)
    acc ->
  tracks_loop E fuel playlist_id limit offset acc s = (Return tracks, s') ->
  Forall (fun track => truthy_str (Track.id track) = true /\ Track.track_type track = TRACK)
    tracks.
Proof.
  revert offset acc s. induction fuel as [|fuel IH]; intros offset acc s Hacc; simpl.
  - discriminate.
  - intros Hrun.
    apply bind_inv in Hrun as [(data & s1 & _ & Hrun) | [(e & _ & Hrun) | (_ & Hrun)]];
      [|discriminate..].
    destruct data as [| | |items next|]; try discriminate.
    assert (Forall (fun track => truthy_str (Track.id track) = true /\
                                 Track.track_type track = TRACK)
              (acc ++ page_tracks E items)) as Hnext
      by (apply Forall_app; split; [exact Hacc|apply page_tracks_ids]).
    cbv zeta in Hrun. destruct (negb (truthy_str next)).
    + injection Hrun as <- _. exact Hnext.
    + eapply IH; [exact Hnext|exact Hrun].
Qed.

(** X14. Every track that [get_playlist_tracks] returns has an identifier (a
    non-empty string: entries without a track or without an identifier are
    left out) and is typed [TRACK], whatever the entry was. *)
Theorem tracks_have_ids (E : Env) (fuel : nat) (playlist_id : string)
    (tracks : list Track.t) (s s' : State) :
  get_playlist_tracks E fuel playlist_id s = (Return tracks, s') ->
  Forall (fun track =>
            (exists id, Track.id track = Some id /\ id <> "") /\
            Track.track_type track = TRACK) tracks.
Proof.
  unfold get_playlist_tracks. unfold_monad.
  destruct (negb (_authenticated s)); [discriminate|].
  intros Hrun. apply (tracks_loop_ids E) in Hrun; [|constructor].
  eapply Forall_impl; [exact Hrun|].
  intros track [Hid Htype]. split; [|exact Htype].
  apply truthy_str_spec. exact Hid.
Qed.

Lemma tracks_have_ids_witness :
  exists tracks s',
    get_playlist_tracks (Demo.jukebox (Demo.entries 3)) 5 "p1" Demo.signed_in
    = (Return tracks, s') /\
    length tracks = 2 /\
    Forall (fun track =>
              (exists id, Track.id track = Some id /\ id <> "") /\
              Track.track_type track = TRACK) tracks.
Proof.
  do 2 eexists. split; [vm_compute; reflexivity|]. split; [reflexivity|].
  eapply (tracks_have_ids (Demo.jukebox (Demo.entries 3)) 5 "p1" _ Demo.signed_in).
  vm_compute. reflexivity.
Defined.

Section TrackPaging.

Context (E : Env) (playlist_id : string) (collection : list ItemJson.t) (token : string).
Hypothesis Hserves : serves_tracks E playlist_id collection.

Let pages := 1 `max` ceil_div (length collection) 50.

Lemma tracks_loop_run (fuel j : nat) (s : State) :
  token_stays_valid E s token ->
  j < pages -> pages - j <= fuel ->
  exists s',
    tracks_loop E fuel playlist_id 50 (Z.of_nat (j * 50))
      (page_tracks E (take (j * 50) collection)) s
    = (Return (page_tracks E collection), s') /\
    api_calls s' = api_calls s ++ (tracks_request token playlist_id <$> seq j (pages - j)).
Proof.
  revert j s. induction fuel as [|fuel IH]; intros j s Hvalid Hj Hfuel; [lia|].
  simpl. unfold bind at 1.
  rewrite (valid_request_run E s token _ _ _ Hvalid). cbv zeta.
  rewrite Hserves. unfold tracks_page. simpl status. cbv beta iota.
  simpl.
  rewrite <- page_tracks_app. change (Z.to_nat 50) with 50. rewrite Nat2Z.id, take_take_drop.
  pose proof (ceil_div_le (length collection) 50 (j + 1) ltac:(lia)) as Hceil.
  destruct (Z.ltb_spec (Z.of_nat (j * 50) + 50) (Z.of_nat (length collection))) as [Hlt|Hge];
    simpl.
  - assert (j + 1 < pages) as Hmore.
    { assert (~ length collection <= (j + 1) * 50) as Hnot by lia.
      rewrite <- Hceil in Hnot. unfold pages. lia. }
    destruct (IH (j + 1)
                (set_api_calls (api_calls s ++ [tracks_request token playlist_id j])
                   (set_clock_reads (S (clock_reads s)) s)))
      as (s' & Hrun & Hcalls); [exact Hvalid|exact Hmore|lia|].
    exists s'. simpl in Hrun, Hcalls. split.
    + replace (Z.of_nat (j * 50) + 50)%Z with (Z.of_nat ((j + 1) * 50)) by lia.
      replace (j * 50 + 50) with ((j + 1) * 50) by lia.
      exact Hrun.
    + rewrite Hcalls, <- app_assoc.
      replace (pages - j) with (S (pages - (j + 1))) by lia.
      simpl. replace (S j) with (j + 1) by lia. reflexivity.
  - assert (pages = j + 1) as Hlast.
    { assert (length collection <= (j + 1) * 50) as Hall by lia.
      apply Hceil in Hall. unfold pages in *. lia. }
    eexists. split.
    + rewrite take_ge by lia. reflexivity.
    + simpl. replace (pages - j) with 1 by lia. reflexivity.
Qed.

End TrackPaging.

(** X15. Against a playlist of [n] entries served in pages,
    [get_playlist_tracks] issues [max 1 (ceil (n / 50))] requests, at
    offsets 0, 50, 100, ..., each for 50 entries: the offsets count
    entries, skipped or not. It returns the tracks of the entries that have
    one with an identifier, in their order, so no more than [n]. *)
Theorem track_pagination (E : Env) (playlist_id : string) (collection : list ItemJson.t)
    (token : string) (fuel : nat) (s : State) :
  serves_tracks E playlist_id collection ->
  token_stays_valid E s token ->
  _authenticated s = true ->
  let requests := 1 `max` ceil_div (length collection) 50 in
  requests <= fuel ->
  exists s',
    get_playlist_tracks E fuel playlist_id s = (Return (page_tracks E collection), s') /\
    api_calls s' = api_calls s ++ (tracks_request token playlist_id <$> seq 0 requests) /\
    length (page_tracks E collection) <= length collection.
Proof.
  intros Hserves Hvalid Hauth requests Hfuel.
  destruct (tracks_loop_run E playlist_id collection token Hserves fuel 0 s Hvalid)
    as (s' & Hrun & Hcalls); [lia|fold requests; lia|].
  exists s'. unfold get_playlist_tracks. unfold_monad. rewrite Hauth. simpl.
  simpl in Hrun. change (Z.of_nat 0) with 0%Z in Hrun. rewrite Hrun.
  rewrite Nat.sub_0_r in Hcalls. split; [reflexivity|]. split; [exact Hcalls|].
  apply page_tracks_length.
Qed.

Lemma track_pagination_witness :
  let E := Demo.jukebox (Demo.entries 120) in
  serves_tracks E "p1" (Demo.entries 120) /\
  token_stays_valid E Demo.signed_in "T1" /\
  exists s',
    get_playlist_tracks E 5 "p1" Demo.signed_in
    = (Return (page_tracks E (Demo.entries 120)), s') /\
    api_calls s' = tracks_request "T1" "p1" <$> [0; 1; 2].
Proof.
  intros E.
  split; [apply jukebox_serves|]. split; [apply signed_in_anywhere|].
  destruct (track_pagination E "p1" (Demo.entries 120) "T1" 5 Demo.signed_in
              (jukebox_serves _) (signed_in_anywhere _ _ _))
    as (s' & Hrun & Hcalls & _).
  - reflexivity.
  - vm_compute. lia.
  - exists s'. split; [exact Hrun|exact Hcalls].
Defined.

(** ** The limit of a listing *)

Lemma playlists_loop_zero (E : Env) (fuel : nat) (batch_limit offset : Z)
    (playlists : list Playlist.t) (s : State) :
  playlists_loop E fuel (Some 0%Z) batch_limit offset playlists s
  = playlists_loop E fuel None batch_limit offset playlists s.
Proof.
  revert offset playlists s. induction fuel as [|fuel IH]; intros offset playlists s;
    [reflexivity|].
  simpl. unfold bind at 1 3.
  destruct (_make_request E "GET" "/me/playlists" _ s) as [[data|e|] s1]; try reflexivity.
  destruct data as [|items next| | |]; try reflexivity.
  unfold_monad. simpl. rewrite !orb_false_r.
  destruct (negb (truthy_str next)); [reflexivity|]. apply IH.
Qed.

(** X16. A limit of 0 is no limit: [get_user_playlists(limit=0)] runs as
    [get_user_playlists()] does, request for request, and returns what it
    returns. *)
Theorem limit_zero_is_no_limit (E : Env) (fuel : nat) (s : State) :
  get_user_playlists E fuel (Some 0%Z) s = get_user_playlists E fuel None s.
Proof.
  unfold get_user_playlists, fetch_playlists. unfold_monad. simpl.
  destruct (negb (_authenticated s)); [reflexivity|].
  rewrite playlists_loop_zero. reflexivity.
Qed.

(** ** A server that always names a next page *)

Lemma tracks_loop_endless (E : Env) (token : string) (fuel : nat) (playlist_id : string)
    (limit offset : Z) (acc : list Track.t) (s : State) :
  always_next E playlist_id ->
  token_stays_valid E s token ->
  fst (tracks_loop E fuel playlist_id limit offset acc s) = Diverge /\
  length (api_calls (snd (tracks_loop E fuel playlist_id limit offset acc s)))
  = length (api_calls s) + fuel.
Proof.
  intros Hnext. revert offset acc s.
  induction fuel as [|fuel IH]; intros offset acc s Hvalid; simpl.
  - split; [reflexivity|]. simpl. lia.
  - unfold bind at 1 2.
    rewrite (valid_request_run E s token _ _ _ Hvalid). cbv zeta.
    match goal with |- context [api E ?seen (ApiRequest ?m _ ?ps ?b)] =>
      destruct (Hnext seen m ps b) as (text & items & next & -> & Hne)
    end.
    simpl. destruct (String.eqb_spec next ""); [contradiction|]. simpl.
    match goal with |- context [tracks_loop E fuel playlist_id limit ?o ?a ?s1] =>
      destruct (IH o a s1) as [Hrun Hcalls]
    end.
    + exact Hvalid.
    + split; [exact Hrun|]. rewrite Hcalls. simpl. rewrite length_app. simpl. lia.
Qed.

(** X17. The track loop has no bound of its own: against a server whose every
    page names a next one, it has not returned after any number [fuel] of
    requests, all of which were sent. *)
Theorem endless_next_never_returns (E : Env) (token : string) (fuel : nat)
    (playlist_id : string) (s : State) :
  always_next E playlist_id ->
  token_stays_valid E s token ->
  _authenticated s = true ->
  fst (get_playlist_tracks E fuel playlist_id s) = Diverge /\
  length (api_calls (snd (get_playlist_tracks E fuel playlist_id s)))
  = length (api_calls s) + fuel.
Proof.
  intros Hnext Hvalid Hauth. unfold get_playlist_tracks. unfold_monad.
  rewrite Hauth. simpl. apply (tracks_loop_endless E token); assumption.
Qed.

Lemma endless_next_never_returns_witness :
  always_next Demo.endless "p1" /\
  fst (get_playlist_tracks Demo.endless 7 "p1" Demo.signed_in) = Diverge /\
  length (api_calls (snd (get_playlist_tracks Demo.endless 7 "p1" Demo.signed_in))) = 7.
Proof.
  assert (always_next Demo.endless "p1") as Hnext.
  { intros seen method params bearer. do 3 eexists. split; [reflexivity|discriminate]. }
  split; [exact Hnext|].
  apply (endless_next_never_returns Demo.endless "T1" 7 "p1" Demo.signed_in Hnext).
  - apply signed_in_anywhere.
  - reflexivity.
Defined.

(** ** The service's flag *)

(** X18. On a service that is not yet authenticated,
    [SpotifyService.authenticate] sets [_authenticated] exactly when it
    returns [True]; when it does not, the flag and the profile are left as
    they were; and without credentials it returns [False] at once, the
    state untouched. *)
Theorem flag_follows_success (E : Env) (fuel : nat) (s : State) :
  _authenticated s = false ->
  let run := SpotifyService_authenticate E fuel s in
  (fst run = Return true <-> _authenticated (snd run) = true) /\
  (fst run <> Return true -> service_fields (snd run) = service_fields s) /\
  (fst (is_configured s) = Return false -> run = (Return false, s)).
Proof.
  intros Hflag run. unfold run, SpotifyService_authenticate, is_configured. unfold_monad.
  simpl.
  destruct (truthy_str _ && truthy_str _); simpl.
  2:{ split; [split; [discriminate|congruence]|]. split; reflexivity. }
  pose proof (SpotifyAuthenticator_authenticate_service E fuel s) as Hfields.
  pose proof (authenticator_catches_all E fuel s) as Hcatch.
  destruct (SpotifyAuthenticator_authenticate E fuel s) as [[success|e|] s1]; simpl in *.
  - destruct success; simpl.
    + unfold try_except.
      pose proof (get_user_profile_service E (set_authenticated true s1)) as Hprofile.
      pose proof (get_user_profile_halts E (set_authenticated true s1)) as Hhalts.
      destruct (get_user_profile E (set_authenticated true s1)) as [[p|e|] s2]; simpl in *.
      * injection Hprofile as Ha _. split; [split; auto|]. split; [congruence|].
        discriminate.
      * injection Hprofile as Ha _. split; [split; auto|]. split; [congruence|].
        discriminate.
      * congruence.
    + split; [split; [discriminate|]|].
      * injection Hfields as Ha _. congruence.
      * split; [intros _; exact Hfields|]. discriminate.
  - exfalso. apply (Hcatch e). reflexivity.
  - split; [split; [discriminate|]|].
    + injection Hfields as Ha _. congruence.
    + split; [intros _; exact Hfields|]. discriminate.
Qed.

Lemma flag_follows_success_witness :
  _authenticated Demo.with_token = false /\
  (fst (SpotifyService_authenticate Demo.offline 0 Demo.with_token) = Return true <->
   _authenticated (snd (SpotifyService_authenticate Demo.offline 0 Demo.with_token)) = true).
Proof.
  split; [reflexivity|].
  apply (flag_follows_success Demo.offline 0 Demo.with_token). reflexivity.
Defined.


(** ** The details of a playlist *)

Lemma tracks_loop_service (E : Env) (fuel : nat) (playlist_id : string) (limit offset : Z)
    (acc : list Track.t) :
  preserves service_fields (tracks_loop E fuel playlist_id limit offset acc).
Proof.
  revert offset acc. induction fuel as [|fuel IH]; intros offset acc; simpl.
  - intros s. reflexivity.
  - apply preserves_bind; [apply _make_request_service|].
    intros data. destruct data as [| | |items next|]; try (intros s; reflexivity).
    cbv zeta. destruct (negb (truthy_str next)); [intros s; reflexivity|apply IH].
Qed.

Lemma get_playlist_tracks_run (E : Env) (playlist_id : string) (collection : list ItemJson.t)
    (token : string) (fuel : nat) (s : State) :
  serves_tracks E playlist_id collection ->
  token_stays_valid E s token ->
  _authenticated s = true ->
  1 `max` ceil_div (length collection) 50 <= fuel ->
  exists s',
    get_playlist_tracks E fuel playlist_id s = (Return (page_tracks E collection), s') /\
    api_calls s'
    = api_calls s ++ (tracks_request token playlist_id
                        <$> seq 0 (1 `max` ceil_div (length collection) 50)) /\
    service_fields s' = service_fields s.
Proof.
  intros Hserves Hvalid Hauth Hfuel.
  destruct (tracks_loop_run E playlist_id collection token Hserves fuel 0 s Hvalid)
    as (s' & Hrun & Hcalls); [lia|lia|].
  exists s'. unfold get_playlist_tracks. unfold_monad. rewrite Hauth. simpl.
  simpl in Hrun. change (Z.of_nat 0) with 0%Z in Hrun. rewrite Hrun.
  rewrite Nat.sub_0_r in Hcalls. split; [reflexivity|]. split; [exact Hcalls|].
  pose proof (tracks_loop_service E fuel playlist_id 50 0 [] s) as Hp.
  rewrite Hrun in Hp. exact Hp.
Qed.

(** X19. [get_playlist_details] asks for the playlist first and for its
    tracks after. When the first answer has a status below 400 and the
    body of a playlist, the tracks are fetched page by page and the
    playlist returned carries them, while its [track_count] is the total
    the Web API reports, not their number. When the first answer has a
    status from 400 on, the call raises after that one request: no track
    is asked for. *)
Theorem details_compose (E : Env) (playlist_id : string) (collection : list ItemJson.t)
    (token : string) (fuel : nat) (s : State) (response : api_response) :
  token_stays_valid E s token ->
  _authenticated s = true ->
  api E (api_calls s) (ApiRequest "GET" ("/playlists/" +:+ playlist_id) [] token)
  = Some response ->
  let requests := 1 `max` ceil_div (length collection) 50 in
  (forall data,
     (status response < 400)%Z -> json response = PlaylistBody data ->
     serves_tracks E playlist_id collection -> requests <= fuel ->
     exists playlist s',
       get_playlist_details E fuel playlist_id s = (Return playlist, s') /\
       playlist = _parse_playlist_detailed (_user_profile s) data (page_tracks E collection) /\
       Playlist.tracks playlist = page_tracks E collection /\
       Playlist.track_count playlist = PlaylistJson.tracks_total data /\
       api_calls s'
       = api_calls s ++ ApiRequest "GET" ("/playlists/" +:+ playlist_id) [] token
                        :: (tracks_request token playlist_id <$> seq 0 requests)) /\
  ((400 <= status response)%Z ->
   exists e s',
     get_playlist_details E fuel playlist_id s = (Raise e, s') /\
     api_calls s' = api_calls s ++ [ApiRequest "GET" ("/playlists/" +:+ playlist_id) [] token]).
Proof.
  intros Hvalid Hauth Hanswer requests.
  pose proof (valid_request_run E s token "GET" ("/playlists/" +:+ playlist_id) [] Hvalid)
    as Hrun.
  cbv zeta in Hrun. rewrite Hanswer in Hrun.
  split.
  - intros data Hstatus Hjson Hserves Hfuel.
    destruct (Z.eqb_spec (status response) 429); [lia|].
    destruct (Z.eqb_spec (status response) 401); [lia|].
    destruct (Z.geb_spec (status response) 400); [lia|].
    set (s1 := set_api_calls
                 (api_calls s ++ [ApiRequest "GET" ("/playlists/" +:+ playlist_id) [] token])
                 (set_clock_reads (S (clock_reads s)) s)) in *.
    destruct (get_playlist_tracks_run E playlist_id collection token fuel s1 Hserves)
      as (s' & Htracks & Hcalls & Hfields); [exact Hvalid|exact Hauth|exact Hfuel|].
    do 2 eexists. split.
    + unfold get_playlist_details. unfold bind at 1. unfold gets at 1. rewrite Hauth.
      cbv beta iota. change (negb true) with false. cbv iota.
      unfold bind at 1. rewrite Hrun. cbv beta iota.
      unfold bind at 1. rewrite Htracks. cbv beta iota.
      rewrite Hjson. unfold_monad.
      replace (_user_profile s') with (_user_profile s); [reflexivity|].
      injection Hfields as _ Hp. symmetry. exact Hp.
    + split; [reflexivity|]. split; [reflexivity|]. split; [reflexivity|].
      rewrite Hcalls. unfold s1. simpl. rewrite <- app_assoc. reflexivity.
  - intros Hstatus.
    assert (exists e, _make_request E "GET" ("/playlists/" +:+ playlist_id) [] s
                      = (Raise e,
                         set_api_calls
                           (api_calls s ++
                            [ApiRequest "GET" ("/playlists/" +:+ playlist_id) [] token])
                           (set_clock_reads (S (clock_reads s)) s))) as (e & Hraise).
    { rewrite Hrun.
      destruct (status response =? 429)%Z; [eexists; reflexivity|].
      destruct (status response =? 401)%Z; [eexists; reflexivity|].
      destruct (Z.geb_spec (status response) 400); [eexists; reflexivity|lia]. }
    exists e. eexists. split.
    + unfold get_playlist_details. unfold bind at 1. unfold gets at 1. rewrite Hauth.
      cbv beta iota. change (negb true) with false. cbv iota.
      unfold bind at 1. rewrite Hraise. reflexivity.
    + reflexivity.
Qed.

Lemma details_compose_witness :
  let E := Demo.jukebox (Demo.entries 3) in
  exists playlist s',
    get_playlist_details E 5 "p1" Demo.signed_in = (Return playlist, s') /\
    Playlist.tracks playlist = page_tracks E (Demo.entries 3) /\
    Playlist.track_count playlist = 1%Z.
Proof.
  intros E.
  destruct (details_compose E "p1" (Demo.entries 3) "T1" 5 Demo.signed_in
              (ApiResponse 200 None "" (PlaylistBody (Demo.playlist "p1"))))
    as [Hok _].
  - apply signed_in_anywhere.
  - reflexivity.
  - reflexivity.
  - destruct (Hok (Demo.playlist "p1")) as (playlist & s' & Hrun & _ & Htracks & Hcount & _).
    + simpl. lia.
    + reflexivity.
    + apply jukebox_serves.
    + vm_compute. lia.
    + exists playlist, s'. split; [exact Hrun|]. split; [exact Htracks|exact Hcount].
Defined.

(** ** The artists of a playlist *)

Lemma ascii_compare_lt_trans (a b c : Ascii.ascii) :
  Ascii.compare a b = Lt -> Ascii.compare b c = Lt -> Ascii.compare a c = Lt.
Proof. unfold Ascii.compare. rewrite !N.compare_lt_iff. lia. Qed.

Lemma string_compare_refl (a : string) : String.compare a a = Eq.
Proof.
  induction a as [|c a IH]; simpl; [reflexivity|].
  unfold Ascii.compare. rewrite N.compare_refl. exact IH.
Qed.

Lemma string_compare_lt_trans (a b c : string) :
  String.compare a b = Lt -> String.compare b c = Lt -> String.compare a c = Lt.
Proof.
  revert b c. induction a as [|x a IH]; intros [|y b] [|z c]; simpl; try congruence.
  destruct (Ascii.compare x y) eqn:Hxy; try discriminate.
  - apply Ascii.compare_eq_iff in Hxy as ->.
    destruct (Ascii.compare y z); try congruence. apply IH.
  - destruct (Ascii.compare y z) eqn:Hyz; try discriminate.
    + apply Ascii.compare_eq_iff in Hyz as <-. rewrite Hxy. reflexivity.
    + rewrite (ascii_compare_lt_trans x y z Hxy Hyz). reflexivity.
Qed.

Lemma str_le_lt_eq (a b : string) : str_le a b <-> str_lt a b \/ a = b.
Proof.
  unfold str_le, str_lt, String.leb, String.ltb. split.
  - destruct (String.compare a b) eqn:Hc; try discriminate; intros _.
    + right. apply String.compare_eq_iff. exact Hc.
    + left. reflexivity.
  - intros [H| ->].
    + destruct (String.compare a b); try discriminate. reflexivity.
    + rewrite string_compare_refl. reflexivity.
Qed.

Lemma str_lt_trans (a b c : string) : str_lt a b -> str_lt b c -> str_lt a c.
Proof.
  unfold str_lt, String.ltb. intros Hab Hbc.
  destruct (String.compare a b) eqn:H1; try discriminate.
  destruct (String.compare b c) eqn:H2; try discriminate.
  rewrite (string_compare_lt_trans a b c H1 H2). reflexivity.
Qed.

#[local] Instance str_le_trans : Transitive str_le.
Proof.
  intros a b c. rewrite !str_le_lt_eq. intros [Hab| ->] [Hbc| ->]; auto.
  left. exact (str_lt_trans a b c Hab Hbc).
Qed.

#[local] Instance str_le_total : Total str_le.
Proof. intros a b. apply String.leb_total. Qed.

Lemma strictly_sorted (l : list string) :
  StronglySorted str_le l -> NoDup l -> StronglySorted str_lt l.
Proof.
  induction 1 as [|a l Hsorted IH Hall]; intros Hnodup; constructor.
  - apply IH. apply NoDup_cons in Hnodup. tauto.
  - apply NoDup_cons in Hnodup as [Hnotin _].
    rewrite Forall_forall in Hall |- *. intros b Hb.
    destruct (proj1 (str_le_lt_eq a b) (Hall b Hb)) as [Hlt| ->]; [exact Hlt|].
    contradiction.
Qed.

(** X20. [unique_artists] is strictly increasing in the order of [str], so
    sorted and without repetition, and holds exactly the names of the
    artists of the tracks of the playlist. *)
Theorem unique_artists_spec (self : Playlist.t) :
  StronglySorted str_lt (unique_artists self) /\
  forall name,
    name ∈ unique_artists self <->
    exists track artist,
      track ∈ Playlist.tracks self /\ artist ∈ Track.artists track /\
      Artist.name artist = name.
Proof.
  unfold unique_artists. cbv zeta.
  set (names := track ← Playlist.tracks self; artist ← Track.artists track;
                [Artist.name artist]).
  split.
  - apply strictly_sorted.
    + apply StronglySorted_merge_sort; apply _.
    + rewrite merge_sort_Permutation. apply NoDup_remove_dups.
  - intros name. rewrite merge_sort_Permutation, elem_of_remove_dups.
    unfold names. rewrite list_elem_of_bind. split.
    + intros (track & Hname & Htrack). apply list_elem_of_bind in Hname
        as (artist & Hname & Hartist).
      apply list_elem_of_singleton in Hname. eauto.
    + intros (track & artist & Htrack & Hartist & <-).
      exists track. split; [|exact Htrack].
      apply list_elem_of_bind. exists artist. split; [|exact Hartist].
      apply list_elem_of_singleton. reflexivity.
Qed.

(** ** The rows of a CSV export *)

Lemma writerow_csv_row (playlist : Playlist.t) (track : Track.t) :
  writerow (csv_row playlist track)
  = inr ((fun key => row_get key (csv_row playlist track)) <$> fieldnames).
Proof. reflexivity. Qed.

Lemma write_tracks_run (playlist : Playlist.t) (tracks : list Track.t) :
  write_tracks playlist tracks
  = inr ((fun track => (fun key => row_get key (csv_row playlist track)) <$> fieldnames)
           <$> tracks).
Proof.
  induction tracks as [|track tracks IH]; [reflexivity|].
  cbn [write_tracks]. rewrite writerow_csv_row, IH. reflexivity.
Qed.

Lemma write_playlists_run (playlists : list Playlist.t) :
  write_playlists playlists
  = inr (playlist ← playlists;
         (fun track => (fun key => row_get key (csv_row playlist track)) <$> fieldnames)
           <$> Playlist.tracks playlist).
Proof.
  induction playlists as [|playlist playlists IH]; [reflexivity|].
  cbn [write_playlists]. rewrite write_tracks_run, IH. reflexivity.
Qed.

(** X21. A CSV export never fails on a row: the keys of every row are field
    names. It writes the header and then one line per track of every
    playlist, in order, each as long as the header, with the identifier and
    the total duration of its playlist and the name and the duration of
    its track; so a playlist without tracks leaves no line. *)
Theorem csv_export_shape (playlists : list Playlist.t) :
  let pairs :=
    playlist ← playlists; track ← Playlist.tracks playlist; [(playlist, track)] in
  exists lines,
    export_playlists playlists = inr ((CStr <$> fieldnames) :: lines) /\
    Forall2 (fun pair line =>
               length line = length fieldnames /\
               column "playlist_id" line = Some (CStr (Playlist.id pair.1)) /\
               column "playlist_duration_ms" line = Some (CInt (total_duration_ms pair.1)) /\
               column "track_name" line = Some (CStr (Track.name pair.2)) /\
               column "track_duration_ms" line = Some (CInt (Track.duration_ms pair.2)))
      pairs lines /\
    length lines = sum_list (length <$> (Playlist.tracks <$> playlists)).
Proof.
  intros pairs. unfold export_playlists, _write_csv. rewrite write_playlists_run.
  eexists. split; [reflexivity|]. unfold pairs. clear pairs. split.
  - induction playlists as [|playlist playlists IH]; [constructor|].
    cbn [mbind list_bind]. apply Forall2_app; [|exact IH].
    clear IH. induction (Playlist.tracks playlist) as [|track tracks IH]; [constructor|].
    cbn. constructor; [|exact IH]. repeat split.
  - induction playlists as [|playlist playlists IH]; [reflexivity|].
    cbn [mbind list_bind fmap list_fmap sum_list sum_list_with].
    rewrite length_app, length_fmap. f_equal. exact IH.
Qed.

(** ** Durations on the screen *)

Lemma string_length_app (a b : string) :
  String.length (a +:+ b) = String.length a + String.length b.
Proof. induction a as [|c a IH]; simpl; [reflexivity|]. rewrite IH. reflexivity. Qed.

Lemma string_app_assoc (a b c : string) : a +:+ b +:+ c = (a +:+ b) +:+ c.
Proof.
  induction a as [|x a IH]; [reflexivity|].
  change (String x (a +:+ b +:+ c) = String x ((a +:+ b) +:+ c)). f_equal. exact IH.
Qed.

Lemma string_app_inj_suffix (p1 p2 t1 t2 : string) :
  String.length t1 = String.length t2 ->
  p1 +:+ t1 = p2 +:+ t2 -> p1 = p2 /\ t1 = t2.
Proof.
  intros Hlen. revert p2. induction p1 as [|c p1 IH]; intros [|d p2] Heq.
  - auto.
  - exfalso. apply (f_equal String.length) in Heq.
    rewrite !string_length_app in Heq. simpl in Heq. lia.
  - exfalso. apply (f_equal String.length) in Heq.
    rewrite !string_length_app in Heq. simpl in Heq. lia.
  - change (String c (p1 +:+ t1) = String d (p2 +:+ t2)) in Heq.
    injection Heq as -> Heq. destruct (IH p2 Heq) as [-> ->]. auto.
Qed.

Lemma pretty_N_go_head (x : N) (s : string) :
  (0 < x)%N ->
  exists c rest, pretty_N_go x s = String c rest /\ c <> Ascii.ascii_of_nat 48.
Proof.
  revert s. induction (N.lt_wf_0 x) as [x _ IH]. intros s Hx.
  rewrite pretty_N_go_step by exact Hx.
  destruct (decide (x `div` 10 = 0)%N) as [Hz|Hnz].
  - rewrite Hz, pretty_N_go_0. do 2 eexists. split; [reflexivity|].
    assert (x < 10)%N as Hsmall
      by (apply N.div_small_iff in Hz; [exact Hz|discriminate]).
    rewrite N.mod_small by exact Hsmall.
    intros Hc. apply (pretty_N_char_inj x 0) in Hc; [lia|exact Hsmall|lia].
  - apply IH; [apply N.div_lt; lia|]. apply N.neq_0_lt_0. exact Hnz.
Qed.

Lemma pretty_Z_head (n : Z) :
  (0 < n)%Z -> exists c rest, pretty n = String c rest /\ c <> Ascii.ascii_of_nat 48.
Proof.
  intros Hn. destruct n as [|p|p]; try lia.
  unfold pretty, pretty_Z, pretty, pretty_N.
  destruct (decide (N.pos p = 0%N)); [discriminate|].
  apply pretty_N_go_head. lia.
Qed.

Lemma pad2_inj (a b : Z) : (0 <= a)%Z -> (0 <= b)%Z -> pad2 a = pad2 b -> a = b.
Proof.
  intros Ha Hb. unfold pad2.
  destruct (Z.leb_spec 0 a); [|lia]. destruct (Z.leb_spec 0 b); [|lia]. simpl.
  destruct (Z.ltb_spec a 10), (Z.ltb_spec b 10); simpl.
  - intros [= Heq]. apply (inj pretty). exact Heq.
  - intros Heq. destruct (pretty_Z_head b) as (c & rest & Hb' & Hc); [lia|].
    rewrite Hb' in Heq. injection Heq as Heq _. exfalso. apply Hc. rewrite <- Heq. reflexivity.
  - intros Heq. destruct (pretty_Z_head a) as (c & rest & Ha' & Hc); [lia|].
    rewrite Ha' in Heq. injection Heq as Heq _. exfalso. apply Hc. rewrite Heq. reflexivity.
  - apply (inj pretty).
Qed.

Lemma pad2_length (n : Z) : (0 <= n < 60)%Z -> String.length (pad2 n) = 2.
Proof.
  intros Hn.
  assert (forallb (fun k => String.length (pad2 (Z.of_nat k)) =? 2) (seq 0 60) = true)
    as Hall by (vm_compute; reflexivity).
  rewrite forallb_forall in Hall.
  specialize (Hall (Z.to_nat n)). rewrite Z2Nat.id in Hall by lia.
  apply Nat.eqb_eq, Hall, in_seq. lia.
Qed.

(** X22. On durations that are not negative, [_format_duration] tells whole
    seconds apart and nothing more: two durations are shown alike exactly
    when they have the same number of whole seconds. *)
Theorem format_duration_injective (d1 d2 : Z) :
  (0 <= d1)%Z -> (0 <= d2)%Z ->
  (_format_duration d1 = _format_duration d2 <-> (d1 / 1000 = d2 / 1000)%Z).
Proof.
  intros H1 H2. split; [|unfold _format_duration; intros ->; reflexivity].
  unfold _format_duration. cbv zeta.
  set (t1 := (d1 / 1000)%Z). set (t2 := (d2 / 1000)%Z).
  assert (0 <= t1)%Z as Ht1 by (apply Z.div_pos; lia).
  assert (0 <= t2)%Z as Ht2 by (apply Z.div_pos; lia).
  clearbody t1 t2. clear d1 d2 H1 H2.
  set (h1 := (t1 / 3600)%Z). set (m1 := (t1 mod 3600 / 60)%Z). set (s1 := (t1 mod 60)%Z).
  set (h2 := (t2 / 3600)%Z). set (m2 := (t2 mod 3600 / 60)%Z). set (s2 := (t2 mod 60)%Z).
  assert (0 <= h1 /\ 0 <= m1 < 60 /\ 0 <= s1 < 60 /\ t1 = 3600 * h1 + 60 * m1 + s1)%Z
    as (Hh1 & Hm1 & Hs1 & Hsum1) by (unfold h1, m1, s1; Z.div_mod_to_equations; lia).
  assert (0 <= h2 /\ 0 <= m2 < 60 /\ 0 <= s2 < 60 /\ t2 = 3600 * h2 + 60 * m2 + s2)%Z
    as (Hh2 & Hm2 & Hs2 & Hsum2) by (unfold h2, m2, s2; Z.div_mod_to_equations; lia).
  clearbody h1 m1 s1 h2 m2 s2.
  assert (forall m s m' s' p p',
            (0 <= m < 60)%Z -> (0 <= s < 60)%Z -> (0 <= m' < 60)%Z -> (0 <= s' < 60)%Z ->
            p +:+ pad2 m +:+ ":" +:+ pad2 s = p' +:+ pad2 m' +:+ ":" +:+ pad2 s' ->
            p = p' /\ m = m' /\ s = s') as Htail.
  { intros m s m' s' p p' Hm Hs Hm' Hs' Heq.
    apply string_app_inj_suffix in Heq as [Hp Heq].
    2:{ rewrite !string_length_app, !pad2_length by assumption. reflexivity. }
    apply string_app_inj_suffix in Heq as [Hmm Heq].
    2:{ rewrite !string_length_app, !pad2_length by assumption. reflexivity. }
    injection Heq as Hss.
    split; [exact Hp|]. split; apply pad2_inj; (lia || assumption). }
  assert (forall h, pad2 h +:+ ":" <> "") as Hprefix.
  { intros h Hp. apply (f_equal String.length) in Hp.
    rewrite string_length_app in Hp. simpl in Hp. lia. }
  destruct (Z.gtb_spec h1 0), (Z.gtb_spec h2 0); intros Heq.
  - rewrite (string_app_assoc (pad2 h1) ":"), (string_app_assoc (pad2 h2) ":") in Heq.
    destruct (Htail m1 s1 m2 s2 _ _ Hm1 Hs1 Hm2 Hs2 Heq) as (Hp & -> & ->).
    apply string_app_inj_suffix in Hp as [Hp _]; [|reflexivity].
    apply pad2_inj in Hp; lia.
  - rewrite (string_app_assoc (pad2 h1) ":") in Heq.
    destruct (Htail m1 s1 m2 s2 _ "" Hm1 Hs1 Hm2 Hs2 Heq) as (Hp & _).
    exfalso. exact (Hprefix h1 Hp).
  - rewrite (string_app_assoc (pad2 h2) ":") in Heq.
    destruct (Htail m1 s1 m2 s2 "" _ Hm1 Hs1 Hm2 Hs2 Heq) as (Hp & _).
    exfalso. exact (Hprefix h2 (eq_sym Hp)).
  - destruct (Htail m1 s1 m2 s2 "" "" Hm1 Hs1 Hm2 Hs2 Heq) as (_ & -> & ->). lia.
Qed.

Lemma format_duration_injective_witness :
  (0 <= 61000)%Z /\ (0 <= 61999)%Z /\ _format_duration 61000 = _format_duration 61999.
Proof.
  split; [lia|]. split; [lia|].
  apply (format_duration_injective 61000 61999); [lia|lia|reflexivity].
Defined.

(** ** The configuration file *)

(** X23. What [save_config] writes is what a new [SpotifyConfig] reads,
    whatever the environment holds: the two credentials given, and the
    redirect URI and the scopes of the instance that saved. The service
    then counts as configured exactly when neither credential is empty.
    A file that is not JSON is ignored like a missing one. *)
Theorem saved_config_wins (environ : gmap string string) (client_id client_secret : string)
    (self : SpotifyConfig.t) (tokens : option TokenManager.t) :
  let file := (save_config client_id client_secret self).1 in
  let saved := (save_config client_id client_secret self).2 in
  SpotifyConfig_init environ file = inr saved /\
  saved = SpotifyConfig.mk (Some client_id) (Some client_secret)
            (SpotifyConfig.redirect_uri self) (SpotifyConfig.scopes self) /\
  (fst (is_configured (SpotifyService_init saved tokens)) = Return true <->
   client_id <> "" /\ client_secret <> "") /\
  SpotifyConfig_init environ NotJson = SpotifyConfig_init environ NoFile.
Proof.
  intros file saved. split; [reflexivity|]. split; [reflexivity|].
  split; [|reflexivity].
  unfold is_configured. unfold_monad. simpl.
  destruct (String.eqb_spec client_id ""), (String.eqb_spec client_secret ""); simpl;
    split; try discriminate; try tauto.
Qed.

(** ** The selection menu *)

Lemma menu_returns_nothing (C : Console) (playlists : list Playlist.t) (fuel reads : nat)
    (selected_playlists chosen : list Playlist.t) :
  fst (menu C playlists fuel reads selected_playlists) = Selected chosen -> chosen = [].
Proof.
  revert reads selected_playlists.
  induction fuel as [|fuel IH]; intros reads selected_playlists; simpl; [discriminate|].
  repeat match goal with
         | |- context [if ?b then _ else _] => destruct b
         | |- context [let '(_, _) := ?x in _] => destruct x
         | |- context [match ?l with [] => _ | _ :: _ => _ end] => destruct l
         end;
    solve [apply IH | intros [= <-]; reflexivity | simpl; discriminate].
Qed.

(** X24. [select_playlists_interactive] never returns a playlist: whenever it
    returns, it returns the empty list. Choosing "8" on a selection that
    is not empty raises the [TypeError] of [set], as after choosing "5" on
    a library that is not empty. *)
Theorem selection_is_never_returned (C : Console) (playlists : list Playlist.t)
    (fuel reads : nat) :
  (forall chosen,
     fst (select_playlists_interactive C playlists fuel reads) = Selected chosen ->
     chosen = []) /\
  (playlists <> [] ->
   strip C (input C reads) = "5" -> strip C (input C (S reads)) = "8" -> 2 <= fuel ->
   select_playlists_interactive C playlists fuel reads = (Unhashable, S (S reads))).
Proof.
  split.
  - intros chosen. unfold select_playlists_interactive.
    destruct playlists; [intros [= <-]; reflexivity|]. apply menu_returns_nothing.
  - intros Hsome Hall Hdone Hfuel. unfold select_playlists_interactive.
    destruct playlists as [|p playlists]; [contradiction|].
    destruct fuel as [|[|fuel]]; [lia..|].
    cbn [menu]. rewrite Hall. cbn. rewrite Hdone. reflexivity.
Qed.

Lemma selection_is_never_returned_witness :
  Demo.three_playlists <> [] /\
  select_playlists_interactive (Demo.console ["5"; "8"]) Demo.three_playlists 2 0
  = (Unhashable, 2).
Proof.
  split; [discriminate|].
  apply (selection_is_never_returned (Demo.console ["5"; "8"]) Demo.three_playlists 2 0).
  - discriminate.
  - reflexivity.
  - reflexivity.
  - lia.
Defined.


(** ** Flows that fail *)

(** X25. When the port of the listener is taken, [_new_authentication]
    returns [False] at once: no state is drawn, no browser is opened,
    nothing is waited for, no form is posted and the stored tokens are
    left as they are. *)
Theorem busy_port_fails_early (E : Env) (fuel : nat) (s : State) :
  port_free E (binds s) = false ->
  let run := _new_authentication E fuel s in
  fst run = Return false /\
  binds (snd run) = S (binds s) /\
  opened (snd run) = opened s /\
  draws (snd run) = draws s /\
  sleeps (snd run) = sleeps s /\
  token_posts (snd run) = token_posts s /\
  stored_tokens (snd run) = stored_tokens s.
Proof.
  intros Hport run.
  assert (run = (Return false, snd (stop_server (set_binds (S (binds s)) s)))) as ->.
  { unfold run, _new_authentication. rewrite guarded_run.
    unfold bind at 1. unfold start_server. unfold_monad. cbv beta iota.
    change (binds (set_binds (S (binds s)) s)) with (S (binds s)).
    rewrite Hport. reflexivity. }
  unfold stop_server. unfold_monad. cbn [fst snd].
  change (oauth_server (set_binds (S (binds s)) s)) with (oauth_server s).
  destruct (SpotifyOAuthServer.server (oauth_server s)); repeat split.
Qed.

Lemma busy_port_fails_early_witness :
  port_free Demo.crowded (binds Demo.fresh) = false /\
  fst (_new_authentication Demo.crowded 5 Demo.fresh) = Return false /\
  opened (snd (_new_authentication Demo.crowded 5 Demo.fresh)) = [].
Proof.
  split; [reflexivity|].
  destruct (busy_port_fails_early Demo.crowded 5 Demo.fresh) as (H1 & _ & H2 & _).
  - reflexivity.
  - split; [exact H1|exact H2].
Defined.

(** X26. An exchange answered without a [refresh_token] is a failed login:
    the code has been posted and accepted, but [_new_authentication]
    returns [False] and stores nothing, the access token it was given
    included. *)
Theorem exchange_without_refresh_token_fails (E : Env) (fuel : nat) (s : State) (q : query)
    (code text : string) (others others' : list string)
    (access_token : option string) (expires_in : Z) :
  let form :=
    [("grant_type", Some "authorization_code"); ("code", Some code);
     ("redirect_uri", Some (SpotifyConfig.redirect_uri (config s)));
     ("client_id", SpotifyConfig.client_id (config s));
     ("client_secret", SpotifyConfig.client_secret (config s))] in
  port_free E (binds s) = true ->
  redirects E (sleeps s) = [q] ->
  q !! "code" = Some (code, others) ->
  code <> "" ->
  q !! "state" = Some (urandom E (draws s), others') ->
  (clock E (S (clock_reads s)) - clock E (clock_reads s) <= 300)%Z ->
  1 <= fuel ->
  token_endpoint E (token_posts s) form
  = Some (TokenResponse 200 text
            (Some (mkTokenJson (Some access_token) None (Some expires_in)))) ->
  fst (_new_authentication E fuel s) = Return false /\
  token_posts (snd (_new_authentication E fuel s)) = token_posts s ++ [form] /\
  stored_tokens (snd (_new_authentication E fuel s)) = stored_tokens s /\
  listening (snd (_new_authentication E fuel s)) = false.
Proof.
  intros form Hport Hred Hcode Hne Hstate Hclock Hfuel Hendpoint.
  assert (exists s',
            _new_authentication E fuel s = (Return false, s') /\
            token_posts s' = token_posts s ++ [form] /\
            stored_tokens s' = stored_tokens s /\ listening s' = false)
    as (s' & Hrun & Hrest); [|rewrite Hrun; split; [reflexivity|exact Hrest]].
  unfold _new_authentication. rewrite guarded_run.
  unfold start_server, get_authorization_url, get_scope_string, webbrowser_open,
    wait_for_callback, time_time.
  unfold_monad. simpl. rewrite Hport. simpl.
  erewrite (wait_first_sleep E fuel _ _ (HTTPServer.mk None None None false true));
    [|reflexivity|reflexivity|reflexivity|simpl; rewrite Hred; discriminate|exact Hclock
     |exact Hfuel].
  simpl. rewrite Hred. simpl. unfold server_attr. unfold_monad. simpl.
  unfold do_GET. rewrite Hcode, Hstate. simpl.
  rewrite bool_decide_eq_true_2 by reflexivity. simpl.
  destruct (String.eqb_spec code ""); [contradiction|]. simpl.
  erewrite exchange_run by (simpl; exact Hendpoint).
  cbv beta iota delta [tj_access_token tj_refresh_token tj_expires_in].
  eexists. split; [reflexivity|].
  repeat split.
Qed.

Lemma exchange_without_refresh_token_fails_witness :
  fst (_new_authentication Demo.grudging 1 Demo.fresh) = Return false /\
  stored_tokens (snd (_new_authentication Demo.grudging 1 Demo.fresh))
  = stored_tokens Demo.fresh.
Proof.
  destruct (exchange_without_refresh_token_fails Demo.grudging 1 Demo.fresh
              (Demo.success "code" "S0") "code" "" [] [] (Some "T3") 3600)
    as (H1 & _ & H3 & _).
  - reflexivity.
  - reflexivity.
  - vm_compute. reflexivity.
  - discriminate.
  - vm_compute. reflexivity.
  - vm_compute. discriminate.
  - lia.
  - vm_compute. reflexivity.
  - split; [exact H1|exact H3].
Defined.

(** ** A listing that is turned away *)

(** X27. A listing that is rate limited is not retried: when the first page
    of playlists is answered 429, [get_user_playlists] raises
    [RateLimitError], naming the delay the answer asks for (60 seconds
    when it names none), after that single request. *)
Theorem rate_limit_is_not_retried (E : Env) (fuel : nat) (limit : option Z) (s : State)
    (token : string) (response : api_response) :
  let batch_limit := if truthy_num limit then Z.min 50 (default 0%Z limit) else 50%Z in
  let request :=
    ApiRequest "GET" "/me/playlists"
      [("limit", PInt batch_limit); ("offset", PInt 0)] token in
  token_stays_valid E s token ->
  _authenticated s = true ->
  api E (api_calls s) request = Some response ->
  status response = 429%Z ->
  1 <= fuel ->
  fst (get_user_playlists E fuel limit s)
  = Raise (Exn RateLimitError
             ("Rate limited. Retry after "
              +:+ pretty (default 60%Z (retry_after response)) +:+ " seconds")) /\
  api_calls (snd (get_user_playlists E fuel limit s)) = api_calls s ++ [request].
Proof.
  intros batch_limit request Hvalid Hauth Hanswer Hstatus Hfuel.
  destruct fuel as [|fuel]; [lia|].
  pose proof (valid_request_run E s token "GET" "/me/playlists"
                [("limit", PInt batch_limit); ("offset", PInt 0)] Hvalid) as Hrun.
  cbv zeta in Hrun. fold request in Hrun. rewrite Hanswer, Hstatus in Hrun.
  change (429 =? 429)%Z with true in Hrun. cbv iota in Hrun.
  unfold get_user_playlists, fetch_playlists. unfold_monad. rewrite Hauth.
  cbn [negb]. cbv zeta. fold batch_limit. cbn [playlists_loop]. unfold_monad.
  rewrite Hrun. split; reflexivity.
Qed.

Lemma rate_limit_is_not_retried_witness :
  token_stays_valid Demo.throttled Demo.signed_in "T1" /\
  fst (get_user_playlists Demo.throttled 5 None Demo.signed_in)
  = Raise (Exn RateLimitError "Rate limited. Retry after 7 seconds") /\
  length (api_calls (snd (get_user_playlists Demo.throttled 5 None Demo.signed_in))) = 1.
Proof.
  split; [apply signed_in_anywhere|].
  destruct (rate_limit_is_not_retried Demo.throttled 5 None Demo.signed_in "T1"
              (ApiResponse 429 (Some 7%Z) "" OtherBody)) as (H1 & H2).
  - apply signed_in_anywhere.
  - reflexivity.
  - reflexivity.
  - reflexivity.
  - lia.
  - split; [exact H1|]. rewrite H2. reflexivity.
Defined.


(** ** What a JSON export keeps *)

Lemma fmap_injective {A B} (f : A -> B) (l1 l2 : list A) :
  (forall a b, f a = f b -> a = b) -> f <$> l1 = f <$> l2 -> l1 = l2.
Proof.
  intros Hf. revert l2. induction l1 as [|a l1 IH]; intros [|b l2]; simpl;
    try discriminate; [reflexivity|].
  intros [= Hab Hrest]. f_equal; [apply Hf; exact Hab|apply IH; exact Hrest].
Qed.

Lemma json_opt_inj (a b : option string) : json_opt a = json_opt b -> a = b.
Proof. destruct a, b; simpl; congruence. Qed.

Lemma dict_items_inj (a b : list (string * string)) :
  (fun kv : string * string => (kv.1, JStr kv.2)) <$> a
  = (fun kv : string * string => (kv.1, JStr kv.2)) <$> b -> a = b.
Proof.
  apply fmap_injective. intros [k v] [k' v']; simpl. congruence.
Qed.

Lemma json_dict_inj (a b : list (string * string)) : json_dict a = json_dict b -> a = b.
Proof. unfold json_dict. intros [= H]. exact (dict_items_inj a b H). Qed.

Lemma dicts_inj (a b : list (list (string * string))) :
  json_dict <$> a = json_dict <$> b -> a = b.
Proof. apply fmap_injective, json_dict_inj. Qed.

Lemma TrackType_value_inj (a b : TrackType) : TrackType_value a = TrackType_value b -> a = b.
Proof. destruct a, b; simpl; congruence. Qed.

Lemma PlaylistType_value_inj (a b : PlaylistType) :
  PlaylistType_value a = PlaylistType_value b -> a = b.
Proof. destruct a, b; simpl; congruence. Qed.

Lemma _serialize_artist_inj (a b : Artist.t) :
  _serialize_artist a = _serialize_artist b -> a = b.
Proof.
  unfold _serialize_artist. intros [= Hid Hname Huri Hurls].
  apply dict_items_inj in Hurls. destruct a, b. simpl in *. subst. reflexivity.
Qed.

Lemma _serialize_album_inj (a b : Album.t) :
  _serialize_album a = _serialize_album b -> a = b.
Proof.
  unfold _serialize_album. intros [= Hid Hname Huri Hdate Htype Hartists Himages Hurls].
  apply fmap_injective in Hartists; [|apply _serialize_artist_inj].
  apply dicts_inj in Himages. apply dict_items_inj in Hurls.
  destruct a, b. simpl in *. subst. reflexivity.
Qed.

Lemma _serialize_track_inj (a b : Track.t) :
  _serialize_track a = _serialize_track b -> a = b.
Proof.
  unfold _serialize_track.
  remember (_serialize_album (Track.album a)) as album_a eqn:Ha.
  remember (_serialize_album (Track.album b)) as album_b eqn:Hb.
  intros [= Hid Hname Huri Htype Hms Hexplicit Hpop Hpreview Hnumber Hdisc Hisrc Hat Hby
             Hartists Halbum Hurls].
  subst album_a album_b.
  apply json_opt_inj in Hid, Hpreview, Hisrc, Hat, Hby.
  apply TrackType_value_inj in Htype.
  apply fmap_injective in Hartists; [|apply _serialize_artist_inj].
  apply _serialize_album_inj in Halbum. apply dict_items_inj in Hurls.
  destruct a, b. simpl in *. subst. reflexivity.
Qed.

Lemma _serialize_playlist_inj (a b : Playlist.t) :
  _serialize_playlist a = _serialize_playlist b -> a = b.
Proof.
  unfold _serialize_playlist.
  intros [= Hid Hname Hdesc Huri Htype Hpublic Hcollab Hoid Hodn Houri Hourls Hfollow
             Hcount _ _ Himages Hurls Hsnap Hc Hm Htracks].
  apply json_opt_inj in Hdesc, Hc, Hm. apply PlaylistType_value_inj in Htype.
  apply dict_items_inj in Hourls, Hurls. apply dicts_inj in Himages.
  apply fmap_injective in Htracks; [|apply _serialize_track_inj].
  destruct a as [? ? ? ? ? ? ? [? ? ? ?] ? ? ? ? ? ? ? ?],
           b as [? ? ? ? ? ? ? [? ? ? ?] ? ? ? ? ? ? ? ?].
  simpl in *. subst. reflexivity.
Qed.

(** X28. A JSON export loses nothing: two exports are the same document
    exactly when they were made at the same time from the same playlists,
    tracks, albums and artists included. *)
Theorem json_export_is_lossless (t1 t2 : datetime) (playlists1 playlists2 : list Playlist.t) :
  export_playlists_json t1 playlists1 = export_playlists_json t2 playlists2 <->
  t1 = t2 /\ playlists1 = playlists2.
Proof.
  split; [|intros [-> ->]; reflexivity].
  unfold export_playlists_json. intros [= -> _ H]. split; [reflexivity|].
  apply fmap_injective in H; [exact H|]. apply _serialize_playlist_inj.
Qed.
